(** * Command & Alert Relay of the FoundryVTT host scripts

    A shallow embedding of [python/signal_listener.py] (inbound poller,
    authorization guard, command parser and dispatcher, notifier) and of
    [python/health_check.py] (prober and retrying monitor), with the
    properties of the relay stated over the embedding.

    Python values are modelled as the scripts use them: a [str] is a
    sequence of Unicode code points, a decoded JSON document is a tree,
    and every interaction with the host (shell commands, clock, log file,
    standard output, sleeping) is an event of an explicit trace. *)

From Stdlib Require Import List NArith ZArith Bool Ascii String Lia.
From Stdlib Require Import DecimalString.
Import ListNotations.

Set Implicit Arguments.
Set Warnings "-register-all".
Local Open Scope list_scope.

(** ** Python strings *)

Module Py.

(** A Python [str]: its code points, in order. *)
Definition char := N.
Definition str := list char.

(** A string literal of the source (all literals but one are ASCII). *)
Definition lit (s : string) : str :=
  map N_of_ascii (list_ascii_of_string s).

Definition char_eqb (a b : char) : bool := N.eqb a b.

Fixpoint str_eqb (s t : str) : bool :=
  match s, t with
  | [], [] => true
  | a :: s', b :: t' => char_eqb a b && str_eqb s' t'
  | _, _ => false
  end.

(** [bool(s)] for a string: the empty string is falsy. *)
Definition str_truthy (s : str) : bool :=
  match s with [] => false | _ :: _ => true end.

(** [s.startswith(p)] *)
Fixpoint startswith (s p : str) : bool :=
  match p, s with
  | [], _ => true
  | _ :: _, [] => false
  | b :: p', a :: s' => char_eqb a b && startswith s' p'
  end.

(** [str.isspace] on one code point: CPython's [_PyUnicode_IsWhitespace]. *)
Definition isspace (c : char) : bool :=
  ((9 <=? c) && (c <=? 13))%N || ((28 <=? c) && (c <=? 32))%N
  || (c =? 133)%N || (c =? 160)%N || (c =? 5760)%N
  || ((8192 <=? c) && (c <=? 8202))%N
  || (c =? 8232)%N || (c =? 8233)%N || (c =? 8239)%N
  || (c =? 8287)%N || (c =? 12288)%N.

(** [s.lstrip()], [s.rstrip()], [s.strip()] *)
Fixpoint lstrip (s : str) : str :=
  match s with
  | [] => []
  | c :: s' => if isspace c then lstrip s' else s
  end.

Definition rstrip (s : str) : str := rev (lstrip (rev s)).

Definition strip (s : str) : str := rstrip (lstrip s).

(** [s.split(sep)] for a separator of one character, as both call sites
    have it ([','] and ['\n']).  The result is never empty. *)
Fixpoint split (sep : char) (s : str) : list str :=
  match s with
  | [] => [[]]
  | c :: s' =>
      if char_eqb c sep then [] :: split sep s'
      else match split sep s' with
           | [] => [[c]]
           | w :: ws => (c :: w) :: ws
           end
  end.

(** [x in l] for a list of strings. *)
Definition str_in (x : str) (l : list str) : bool := existsb (str_eqb x) l.

(** [sep.join(l)] *)
Fixpoint join (sep : str) (l : list str) : str :=
  match l with
  | [] => []
  | [x] => x
  | x :: rest => x ++ sep ++ join sep rest
  end.

(** [str(n)] for an [int]. *)
Definition str_of_int (n : Z) : str :=
  lit (NilZero.string_of_int (Z.to_int n)).

(** [str(b)] for a [bool]. *)
Definition str_of_bool (b : bool) : str :=
  if b then lit "True" else lit "False".

Definition newline : char := 10%N.
Definition comma : char := 44%N.
Definition dquote : char := 34%N.

End Py.

Import Py.

(** ** Decoded JSON and the values the listener handles *)

(** What [json.loads] returns.  Of a float only its truth value matters to
    the listener, so that is all the embedding keeps of it. *)
Inductive json : Type :=
| JNull
| JBool (b : bool)
| JInt (n : Z)
| JFloat (nonzero : bool)
| JStr (s : str)
| JList (l : list json)
| JDict (d : list (str * json)).

(** [type(v).__name__] *)
Definition type_name (v : json) : str :=
  match v with
  | JNull => lit "NoneType"
  | JBool _ => lit "bool"
  | JInt _ => lit "int"
  | JFloat _ => lit "float"
  | JStr _ => lit "str"
  | JList _ => lit "list"
  | JDict _ => lit "dict"
  end.

(** [bool(v)], as [if body:] takes it. *)
Definition truthy (v : json) : bool :=
  match v with
  | JNull => false
  | JBool b => b
  | JInt n => negb (n =? 0)%Z
  | JFloat nz => nz
  | JStr s => str_truthy s
  | JList l => match l with [] => false | _ => true end
  | JDict d => match d with [] => false | _ => true end
  end.

(** [x in l] where [l] is a list of strings: only a string can be equal to
    one of its members. *)
Definition json_in (x : json) (l : list str) : bool :=
  match x with
  | JStr s => str_in s l
  | _ => false
  end.

Fixpoint assoc (k : str) (d : list (str * json)) : option json :=
  match d with
  | [] => None
  | (k', v) :: d' => if str_eqb k k' then Some v else assoc k d'
  end.

(** ** Exceptions, events and the host *)

Inductive exn : Type :=
| JSONDecodeError
| AttributeError (type attr : str)
| CalledProcessError (cmd : str) (status : Z)
| Raised (class text : str).      (* any other exception: its class and [str] *)

(** What the scripts do to the host, in program order. *)
Inductive event : Type :=
| Exec (cmd : str)                (* subprocess.run(cmd, shell=True, ...) *)
| Print (line : str)              (* print(line) *)
| Append (path line : str)        (* open(path, "a").write(line) *)
| Sleep (seconds : Z).            (* time.sleep(seconds) *)

(** [subprocess.CompletedProcess] with captured text output. *)
Record CompletedProcess : Type := mkCompleted {
  returncode : Z;
  stdout : str
}.

(** The host the scripts run on.  Shell commands and clock readings are
    answered in the order they are made: [sh k cmd] is the outcome of the
    [k]-th [subprocess.run] of the process when it runs [cmd], and
    [strftime k] the [k]-th formatted clock reading.  [json_loads] is
    [json.loads] ([None] for a [JSONDecodeError]) and [called_process_error]
    is [str] of a [CalledProcessError]; both belong to Python's library. *)
Record Host : Type := mkHost {
  getenv : str -> option str;
  sh : nat -> str -> CompletedProcess;
  strftime : nat -> str;
  json_loads : str -> option json;
  called_process_error : str -> Z -> str
}.

(** ** The monad of the scripts: state, exceptions and a trace *)

Record St : Type := mkSt {
  calls : nat;      (* shell commands run so far *)
  reads : nat       (* clock readings made so far *)
}.

Inductive res (A : Type) : Type :=
| Val (a : A)
| Exc (e : exn).
Arguments Exc {A} e.

Record outcome (A : Type) : Type := mkOutcome {
  result : res A;
  final : St;
  events : list event
}.

Definition M (A : Type) : Type := St -> outcome A.

Definition ret {A} (a : A) : M A :=
  fun st => mkOutcome (Val a) st [].

Definition raise {A} (e : exn) : M A :=
  fun st => mkOutcome (Exc e) st [].

Definition bind {A B} (m : M A) (k : A -> M B) : M B :=
  fun st =>
    let o := m st in
    match result o with
    | Val a =>
        let o' := k a (final o) in
        mkOutcome (result o') (final o') (events o ++ events o')
    | Exc e => mkOutcome (Exc e) (final o) (events o)
    end.

(** [try: m except: h] *)
Definition try_except {A} (m : M A) (h : exn -> M A) : M A :=
  fun st =>
    let o := m st in
    match result o with
    | Val a => o
    | Exc e =>
        let o' := h e (final o) in
        mkOutcome (result o') (final o') (events o ++ events o')
    end.

Declare Scope py_scope.
Delimit Scope py_scope with py.
Notation "x <- m ;; k" := (bind m (fun x => k))
  (at level 61, m at next level, right associativity) : py_scope.
Notation "m ;; k" := (bind m (fun _ => k))
  (at level 61, right associativity) : py_scope.
Local Open Scope py_scope.

Definition emit (e : event) : M unit :=
  fun st => mkOutcome (Val tt) st [e].

Definition print (line : str) : M unit := emit (Print line).
Definition sleep (seconds : Z) : M unit := emit (Sleep seconds).
Definition append_file (path line : str) : M unit := emit (Append path line).

(** ** What both scripts share: the shell, the clock, the environment *)

Section OnHost.

Variable host : Host.

(** [subprocess.run(cmd, shell=True, ...)] without [check]: the outcome
    is returned whatever the exit status.  This is the call on a host where
    the command can be started and its output is valid text; the module
    [Strict] below gives the call without these assumptions. *)
Definition subprocess_run (cmd : str) : M CompletedProcess :=
  fun st =>
    mkOutcome (Val (sh host (calls st) cmd))
              (mkSt (S (calls st)) (reads st))
              [Exec cmd].

(** [subprocess.run(cmd, shell=True, check=True)] *)
Definition subprocess_run_check (cmd : str) : M CompletedProcess :=
  r <- subprocess_run cmd ;;
  if (returncode r =? 0)%Z then ret r
  else raise (CalledProcessError cmd (returncode r)).

(** [time.strftime("[%Y-%m-%d %H:%M:%S]")] *)
Definition timestamp : M str :=
  fun st =>
    mkOutcome (Val (strftime host (reads st)))
              (mkSt (calls st) (S (reads st)))
              [].

(** [os.getenv(name)] inside an f-string: [None] is printed as such. *)
Definition fmt_env (name : str) : str :=
  match getenv host name with
  | Some v => v
  | None => lit "None"
  end.

(** [os.getenv(name, default)] *)
Definition getenv_default (name default : str) : str :=
  match getenv host name with
  | Some v => v
  | None => default
  end.

(** [str(e)].  A [JSONDecodeError] is caught where it is raised and its
    text is never printed, so a placeholder stands for it. *)
Definition str_of_exn (e : exn) : str :=
  match e with
  | JSONDecodeError => lit "JSONDecodeError"
  | AttributeError ty attr =>
      lit "'" ++ ty ++ lit "' object has no attribute '" ++ attr ++ lit "'"
  | CalledProcessError cmd status => called_process_error host cmd status
  | Raised _ text => text
  end.

Definition SIGNAL_CLI_PATH : str := lit "/usr/bin/signal-cli".

(** The command line both scripts build to send [message] to the group. *)
Definition send_command (message : str) : str :=
  SIGNAL_CLI_PATH ++ lit " -u " ++ fmt_env (lit "SIGNAL_CLI_USER")
  ++ lit " send --message " ++ [dquote] ++ message ++ [dquote]
  ++ lit " --receiver-group " ++ fmt_env (lit "SIGNAL_GROUP_ID").

End OnHost.

Fixpoint for_each {A} (l : list A) (body : A -> M unit) : M unit :=
  match l with
  | [] => ret tt
  | x :: rest => body x ;; for_each rest body
  end.

(** ** python/signal_listener.py *)

Module SignalListener.
Section OnHost.

Variable host : Host.

Definition AUTHORIZED_SENDERS : list str :=
  split comma (getenv_default host (lit "AUTHORIZED_SENDERS") []).

Definition COMMAND_PREFIX : str := lit "!".

Definition ALLOWED_COMMANDS : list str :=
  [ lit "foundry status";
    lit "foundry restart";
    lit "foundry health";
    lit "foundry backup";
    lit "foundry uptime";
    lit "foundry space";
    lit "foundry reboot";
    lit "foundry help" ].

Definition send_signal_message (message : str) : M unit :=
  try_except
    (subprocess_run_check host (send_command host message) ;; ret tt)
    (fun e =>
       match e with
       | CalledProcessError _ _ =>
           print (lit "Failed to send Signal message. Error: "
                  ++ str_of_exn host e)
       | _ => raise e
       end).

Definition parse_command (body : json) : M (option str) :=
  match body with
  | JStr s =>
      if negb (startswith s COMMAND_PREFIX) then ret None
      else ret (Some (strip (skipn (List.length COMMAND_PREFIX) s)))
  | _ => raise (AttributeError (type_name body) (lit "startswith"))
  end.

Definition help_message : str :=
  lit "Available commands:" ++ [newline]
  ++ lit "!foundry status" ++ [newline]
  ++ lit "!foundry restart" ++ [newline]
  ++ lit "!foundry health" ++ [newline]
  ++ lit "!foundry backup" ++ [newline]
  ++ lit "!foundry uptime" ++ [newline]
  ++ lit "!foundry space" ++ [newline]
  ++ lit "!foundry reboot" ++ [newline]
  ++ lit "!foundry help".

Definition run_action (cmd : str) : M unit :=
  subprocess_run host cmd ;; ret tt.

Definition handle_command (command : str) (sender : json) : M unit :=
  if negb (json_in sender AUTHORIZED_SENDERS) then
    send_signal_message (lit "Unauthorized sender. Access denied.")
  else if negb (str_in command ALLOWED_COMMANDS) then
    send_signal_message
      (lit "Invalid command '" ++ command
       ++ lit "'. Send '!foundry help' for options.")
  else if str_eqb command (lit "foundry status") then
    run_action (lit "./foundry.sh status")
  else if str_eqb command (lit "foundry restart") then
    run_action (lit "./foundry.sh restart")
  else if str_eqb command (lit "foundry health") then
    run_action (lit "python3 ../python/health_check.py")
  else if str_eqb command (lit "foundry backup") then
    run_action (lit "./foundry.sh backup")
  else if str_eqb command (lit "foundry uptime") then
    run_action (lit "uptime")
  else if str_eqb command (lit "foundry space") then
    run_action (lit "df -h /backups")
  else if str_eqb command (lit "foundry reboot") then
    run_action (lit "sudo reboot")
  else if str_eqb command (lit "foundry help") then
    send_signal_message help_message
  else ret tt.

(** [d.get(key, default)]; anything but a dict has no [get]. *)
Definition dict_get (v : json) (key : str) (default : json) : M json :=
  match v with
  | JDict d =>
      ret (match assoc key d with Some x => x | None => default end)
  | _ => raise (AttributeError (type_name v) (lit "get"))
  end.

(** Lines 106 to 109: what the loop does with a decoded envelope.
    [if command:] fails for [None] and for the empty string alike. *)
Definition process_envelope (source body : json) : M unit :=
  if truthy body then
    command <- parse_command body ;;
    match command with
    | Some c => if str_truthy c then handle_command c source else ret tt
    | None => ret tt
    end
  else ret tt.

(** [json.loads(raw)] where it raises nothing but a [JSONDecodeError];
    [Strict.loads] below is the call without this assumption. *)
Definition loads (raw : str) : M json :=
  match json_loads host raw with
  | Some data => ret data
  | None => raise JSONDecodeError
  end.

(** The body of the [for raw_message in messages] loop. *)
Definition process_message (raw_message : str) : M unit :=
  try_except
    (data <- loads raw_message ;;
     envelope <- dict_get data (lit "envelope") (JDict []) ;;
     source <- dict_get envelope (lit "source") (JStr []) ;;
     data_message <- dict_get envelope (lit "dataMessage") (JDict []) ;;
     body <- dict_get data_message (lit "message") (JStr []) ;;
     process_envelope source body)
    (fun e =>
       match e with
       | JSONDecodeError =>
           ts <- timestamp host ;;
           print (ts ++ lit " Failed to decode message: " ++ raw_message)
       | _ => raise e
       end).

Definition receive_command : str :=
  SIGNAL_CLI_PATH ++ lit " -u " ++ fmt_env host (lit "SIGNAL_CLI_USER")
  ++ lit " receive -t".

(** One turn of the [while True] loop. *)
Definition listen_cycle : M unit :=
  try_except
    (result <- subprocess_run host receive_command ;;
     if str_truthy (stdout result) then
       for_each (split newline (strip (stdout result))) process_message
     else ret tt)
    (fun e =>
       ts <- timestamp host ;;
       print (ts ++ lit " Error receiving messages: " ++ str_of_exn host e)) ;;
  sleep 5.

(** [listen_for_signal_messages] never returns; its first [cycles] turns. *)
Fixpoint listen_for_signal_messages (cycles : nat) : M unit :=
  match cycles with
  | O => ret tt
  | S n => listen_cycle ;; listen_for_signal_messages n
  end.

End OnHost.
End SignalListener.

(** ** python/health_check.py *)

Module HealthCheck.
Section OnHost.

Variable host : Host.

Definition LOG_FILE : str := lit "../logs/health_check.log".

(** The log file is taken to be writable. *)
Definition log (message : str) : M unit :=
  ts <- timestamp host ;;
  append_file LOG_FILE (ts ++ lit " " ++ message ++ [newline]) ;;
  ts' <- timestamp host ;;
  print (ts' ++ lit " " ++ message).

Definition send_signal_alert (message : str) : M unit :=
  try_except
    (subprocess_run_check host (send_command host message) ;;
     log (lit "Signal alert sent successfully."))
    (fun e =>
       match e with
       | CalledProcessError _ _ => log (lit "Failed to send Signal alert.")
       | _ => raise e
       end).

Definition podman_command : str :=
  lit "podman ps --filter 'name=foundryvtt' --filter 'status=running' -q".

Definition curl_command (port : Z) : str :=
  lit "curl --connect-timeout 5 -s http://localhost:" ++ str_of_int port.

Definition check_foundry_container : M bool :=
  result <- subprocess_run host podman_command ;;
  ret (str_truthy (strip (stdout result))).

Definition default_port : Z := 29000.

Definition check_web_server (port : Z) : M bool :=
  result <- subprocess_run host (curl_command port) ;;
  ret (returncode result =? 0)%Z.

Definition alert_message : str :=
  [128680%N]
  ++ lit " FoundryVTT Health Check FAILED after retries! Immediate attention needed!".

(** The [for attempt in ...] loop with what follows it; [return True]
    leaves it early. *)
Fixpoint health_check_loop (attempts : list nat) : M bool :=
  match attempts with
  | [] =>
      send_signal_alert alert_message ;;
      ret false
  | attempt :: rest =>
      let n := str_of_int (Z.of_nat attempt) in
      log (lit "Health check attempt " ++ n ++ lit "...") ;;
      container_ok <- check_foundry_container ;;
      web_ok <- check_web_server default_port ;;
      if container_ok && web_ok then
        log (lit "FoundryVTT container and web server are healthy.") ;;
        ret true
      else
        log (lit "Attempt " ++ n ++ lit ": Foundry container healthy: "
             ++ str_of_bool container_ok ++ lit ", Web server healthy: "
             ++ str_of_bool web_ok) ;;
        sleep 5 ;;
        health_check_loop rest
  end.

Definition retries : nat := 3.

(** [range(1, retries + 1)] *)
Definition health_check : M bool :=
  health_check_loop (seq 1 (retries + 1 - 1)).

End OnHost.
End HealthCheck.

(** The entry point of the listener script; of the endless loop, its first
    [cycles] turns. *)
Definition signal_listener_main (host : Host) (cycles : nat) : M unit :=
  ts <- timestamp host ;;
  print (ts ++ lit " Signal listener starting...") ;;
  SignalListener.listen_for_signal_messages host cycles.

(** ** python/notify_signal.py *)

Module NotifySignal.
Section OnHost.

Variable host : Host.

Definition send_signal_message (message : str) : M unit :=
  try_except
    (subprocess_run_check host (send_command host message) ;;
     print (lit "Signal message sent successfully."))
    (fun e =>
       match e with
       | CalledProcessError _ _ =>
           print (lit "Failed to send Signal message. Error: "
                  ++ str_of_exn host e)
       | _ => raise e
       end).

Definition usage : str :=
  lit "Usage: notify_signal.py " ++ [dquote] ++ lit "Your message here"
  ++ [dquote].

(** The script run with [sys.argv = argv].  The value is the exit status
    of the process: 1 after [sys.exit(1)], 0 at the end of the script. *)
Definition main (argv : list str) : M Z :=
  if (List.length argv <? 2)%nat then
    print usage ;;
    ret 1%Z
  else
    send_signal_message (nth 1 argv []) ;;
    ret 0%Z.

End OnHost.
End NotifySignal.

(** ** python/check_and_update_foundry.py *)

Module CheckAndUpdate.
Section OnHost.

Variable host : Host.

Definition send_signal_message (message : str) : M unit :=
  try_except
    (subprocess_run_check host (send_command host message) ;;
     ts <- timestamp host ;;
     print (ts ++ lit " Notification sent."))
    (fun e =>
       match e with
       | CalledProcessError _ _ =>
           ts <- timestamp host ;;
           print (ts ++ lit " Failed to send Signal message: "
                  ++ str_of_exn host e)
       | _ => raise e
       end).

Definition inspect_command : str :=
  lit "docker inspect foundryvtt --format '{{ .Config.Image }}'".

Definition get_current_foundry_version : M (option str) :=
  result <- subprocess_run host inspect_command ;;
  if (returncode result =? 0)%Z then ret (Some (strip (stdout result)))
  else ret None.

(** The placeholder of the source: there is never a new version. *)
Definition check_for_new_foundry_version : M (option str) := ret None.

Definition tar_command (timestamp_str : str) : str :=
  lit "tar czf " ++ (lit "/backups/foundry_backup_" ++ timestamp_str
                     ++ lit ".tar.gz")
  ++ lit " /home/foundryuser/foundrydata".

(** [time.strftime] with the format of the file name is the next reading
    of the clock. *)
Definition backup_foundry_data : M bool :=
  timestamp_str <- timestamp host ;;
  result <- subprocess_run host (tar_command timestamp_str) ;;
  ret (returncode result =? 0)%Z.

Definition update_foundry_container : M unit :=
  subprocess_run host (lit "docker pull felddy/foundryvtt:release") ;;
  subprocess_run host (lit "docker stop foundryvtt") ;;
  subprocess_run host (lit "docker rm foundryvtt") ;;
  subprocess_run host
    (lit "docker run -d --name foundryvtt -p 29000:30000 felddy/foundryvtt:release") ;;
  ret tt.

(** [str(v)], [bool(v)] and [v != w] for a version, which is a string or
    [None]. *)
Definition str_of_version (v : option str) : str :=
  match v with
  | Some s => s
  | None => lit "None"
  end.

Definition version_truthy (v : option str) : bool :=
  match v with
  | Some s => str_truthy s
  | None => false
  end.

Definition version_neb (v w : option str) : bool :=
  match v, w with
  | Some s, Some t => negb (str_eqb s t)
  | None, None => false
  | _, _ => true
  end.

Definition new_version_message (available_version : option str) : str :=
  [128276%N] ++ lit " New FoundryVTT version available: "
  ++ str_of_version available_version
  ++ lit ". Backing up and updating...".

Definition backup_ok_message : str :=
  [9989%N] ++ lit " Backup successful. Updating container...".

Definition updated_message : str :=
  [128640%N] ++ lit " FoundryVTT container updated and restarted.".

Definition backup_failed_message : str :=
  [9888%N; 65039%N] ++ lit " Backup failed! Aborting update.".

(** Lines 66 to 77 of [main]: what is done once both versions are known. *)
Definition update_if_new (current_version available_version : option str)
  : M unit :=
  if version_truthy available_version
     && version_neb available_version current_version then
    send_signal_message (new_version_message available_version) ;;
    backup_ok <- backup_foundry_data ;;
    if backup_ok then
      send_signal_message backup_ok_message ;;
      update_foundry_container ;;
      send_signal_message updated_message
    else
      send_signal_message backup_failed_message
  else
    ts <- timestamp host ;;
    print (ts ++ lit " No new FoundryVTT version detected. Nothing to do.").

Definition main : M unit :=
  current_version <- get_current_foundry_version ;;
  ts <- timestamp host ;;
  print (ts ++ lit " Current Foundry container: "
         ++ str_of_version current_version) ;;
  available_version <- check_for_new_foundry_version ;;
  update_if_new current_version available_version.

End OnHost.
End CheckAndUpdate.

(** ** python/weekly_health_report.py: the choice of the latest backup *)

Module WeeklyReport.

(** [s.endswith(p)] *)
Definition endswith (s p : str) : bool := startswith (rev s) (rev p).

(** [s <= t] on strings: code point by code point. *)
Fixpoint str_leb (s t : str) : bool :=
  match s, t with
  | [], _ => true
  | _ :: _, [] => false
  | a :: s', b :: t' =>
      if (a <? b)%N then true
      else if (b <? a)%N then false
      else str_leb s' t'
  end.

Definition is_backup_name (f : str) : bool :=
  startswith f (lit "foundry_backup_") && endswith f (lit ".tar.gz").

(** [l.sort(reverse=True)]: the names from the greatest to the least. *)
Fixpoint insert_reverse (x : str) (l : list str) : list str :=
  match l with
  | [] => [x]
  | y :: rest =>
      if str_leb y x then x :: l else y :: insert_reverse x rest
  end.

Fixpoint sort_reverse (l : list str) : list str :=
  match l with
  | [] => []
  | x :: rest => insert_reverse x (sort_reverse rest)
  end.

(** Lines 43 to 46 of [get_latest_backup_info]: from what
    [os.listdir(BACKUP_FOLDER)] returned to the name reported as the latest
    backup, or [None] where the function reports that there is no backup. *)
Definition latest_backup (listing : list str) : option str :=
  match sort_reverse (filter is_backup_name listing) with
  | [] => None
  | latest :: _ => Some latest
  end.

End WeeklyReport.

(** ** The scripts without the assumptions on the host

    The definitions above take three things for granted: that the shell
    command of [subprocess.run] can be started, that captured output is
    valid text, and that [json.loads] raises nothing but a
    [JSONDecodeError].  Python gives them up as follows, and the definitions
    of this module follow it: [subprocess.run] raises a [ValueError] before
    anything is started when the command line holds U+0000; with
    [text=True] it raises a [UnicodeDecodeError] after the command has run
    when the output is not valid text; and [json.loads] raises a
    [RecursionError] or a plain [ValueError] on some lines.  None of these
    is a [CalledProcessError] or a [JSONDecodeError], so the handlers of
    the scripts let them through. *)

(** What can go wrong on the host beyond exit statuses: the text of the
    [UnicodeDecodeError], if any, that decoding the output of the [k]-th
    shell command raises, and the exception other than [JSONDecodeError],
    if any, that [json.loads] raises on a line (its class and text). *)
Record Faults : Type := mkFaults {
  undecodable_output : nat -> option str;
  loads_raises : str -> option (str * str)
}.

(** [0 in s] for the code point U+0000. *)
Definition has_nul (s : str) : bool := existsb (N.eqb 0) s.

Module Strict.
Section OnHost.

Variable host : Host.
Variable faults : Faults.

(** [subprocess.run(cmd, shell=True, ...)]; [capture] says whether the
    call has [capture_output=True, text=True]. *)
Definition subprocess_run (capture : bool) (cmd : str)
  : M CompletedProcess :=
  fun st =>
    if has_nul cmd then
      mkOutcome (Exc (Raised (lit "ValueError") (lit "embedded null byte")))
                st []
    else
      match (if capture then undecodable_output faults (calls st) else None)
      with
      | Some text =>
          mkOutcome (Exc (Raised (lit "UnicodeDecodeError") text))
                    (mkSt (S (calls st)) (reads st))
                    [Exec cmd]
      | None =>
          mkOutcome (Val (sh host (calls st) cmd))
                    (mkSt (S (calls st)) (reads st))
                    [Exec cmd]
      end.

Definition subprocess_run_check (cmd : str) : M CompletedProcess :=
  r <- subprocess_run false cmd ;;
  if (returncode r =? 0)%Z then ret r
  else raise (CalledProcessError cmd (returncode r)).

Definition loads (raw : str) : M json :=
  match loads_raises faults raw with
  | Some (class, text) => raise (Raised class text)
  | None =>
      match json_loads host raw with
      | Some data => ret data
      | None => raise JSONDecodeError
      end
  end.

Definition send_signal_message (message : str) : M unit :=
  try_except
    (subprocess_run_check (send_command host message) ;; ret tt)
    (fun e =>
       match e with
       | CalledProcessError _ _ =>
           print (lit "Failed to send Signal message. Error: "
                  ++ str_of_exn host e)
       | _ => raise e
       end).

Definition run_action (cmd : str) : M unit :=
  subprocess_run false cmd ;; ret tt.

Definition handle_command (command : str) (sender : json) : M unit :=
  if negb (json_in sender (SignalListener.AUTHORIZED_SENDERS host)) then
    send_signal_message (lit "Unauthorized sender. Access denied.")
  else if negb (str_in command SignalListener.ALLOWED_COMMANDS) then
    send_signal_message
      (lit "Invalid command '" ++ command
       ++ lit "'. Send '!foundry help' for options.")
  else if str_eqb command (lit "foundry status") then
    run_action (lit "./foundry.sh status")
  else if str_eqb command (lit "foundry restart") then
    run_action (lit "./foundry.sh restart")
  else if str_eqb command (lit "foundry health") then
    run_action (lit "python3 ../python/health_check.py")
  else if str_eqb command (lit "foundry backup") then
    run_action (lit "./foundry.sh backup")
  else if str_eqb command (lit "foundry uptime") then
    run_action (lit "uptime")
  else if str_eqb command (lit "foundry space") then
    run_action (lit "df -h /backups")
  else if str_eqb command (lit "foundry reboot") then
    run_action (lit "sudo reboot")
  else if str_eqb command (lit "foundry help") then
    send_signal_message SignalListener.help_message
  else ret tt.

Definition process_envelope (source body : json) : M unit :=
  if truthy body then
    command <- SignalListener.parse_command body ;;
    match command with
    | Some c => if str_truthy c then handle_command c source else ret tt
    | None => ret tt
    end
  else ret tt.

Definition process_message (raw_message : str) : M unit :=
  try_except
    (data <- loads raw_message ;;
     envelope <- SignalListener.dict_get data (lit "envelope") (JDict []) ;;
     source <- SignalListener.dict_get envelope (lit "source") (JStr []) ;;
     data_message <-
       SignalListener.dict_get envelope (lit "dataMessage") (JDict []) ;;
     body <- SignalListener.dict_get data_message (lit "message") (JStr []) ;;
     process_envelope source body)
    (fun e =>
       match e with
       | JSONDecodeError =>
           ts <- timestamp host ;;
           print (ts ++ lit " Failed to decode message: " ++ raw_message)
       | _ => raise e
       end).

Definition listen_cycle : M unit :=
  try_except
    (result <- subprocess_run true (SignalListener.receive_command host) ;;
     if str_truthy (stdout result) then
       for_each (split newline (strip (stdout result))) process_message
     else ret tt)
    (fun e =>
       ts <- timestamp host ;;
       print (ts ++ lit " Error receiving messages: " ++ str_of_exn host e)) ;;
  sleep 5.

Definition check_foundry_container : M bool :=
  result <- subprocess_run true HealthCheck.podman_command ;;
  ret (str_truthy (strip (stdout result))).

Definition check_web_server (port : Z) : M bool :=
  result <- subprocess_run true (HealthCheck.curl_command port) ;;
  ret (returncode result =? 0)%Z.

End OnHost.
End Strict.

(** How [subprocess.run] ends on a command line that holds U+0000. *)
Definition value_error {A} : res A :=
  Exc (Raised (lit "ValueError") (lit "embedded null byte")).

(** The handler of the loop body, and the loop body around what is done
    with the sender and the body once they are read. *)
Definition decode_handler (host : Host) (raw : str) (e : exn) : M unit :=
  match e with
  | JSONDecodeError =>
      ts <- timestamp host ;;
      print (ts ++ lit " Failed to decode message: " ++ raw)
  | _ => raise e
  end.

Definition with_envelope (host : Host) (raw : str)
    (k : json -> json -> M unit) : M unit :=
  try_except
    (data <- SignalListener.loads host raw ;;
     envelope <- SignalListener.dict_get data (lit "envelope") (JDict []) ;;
     source <- SignalListener.dict_get envelope (lit "source") (JStr []) ;;
     data_message <-
       SignalListener.dict_get envelope (lit "dataMessage") (JDict []) ;;
     body <- SignalListener.dict_get data_message (lit "message") (JStr []) ;;
     k source body)
    (decode_handler host raw).

(** A line that the loop body handles without an exception leaving it. *)
Definition handled (host : Host) (faults : Faults) (raw : str) : Prop :=
  forall st, exists u,
    result (Strict.process_message host faults raw st) = Val u.

(** No fault: every output decodes and [json.loads] raises nothing but a
    [JSONDecodeError]. *)
Definition no_faults : Faults := mkFaults (fun _ => None) (fun _ => None).




(** The configured user and group hold no U+0000 (no environment variable
    does). *)
Definition env_clean (host : Host) : Prop :=
  has_nul (fmt_env host (lit "SIGNAL_CLI_USER")) = false
  /\ has_nul (fmt_env host (lit "SIGNAL_GROUP_ID")) = false.

(** ** Reading a trace *)

Definition is_exec (e : event) : bool :=
  match e with Exec _ => true | _ => false end.

Definition is_log (e : event) : bool :=
  match e with Print _ | Append _ _ => true | _ => false end.

(** The shell commands of a trace: actions, probes and notifications. *)
Definition execs (t : list event) : list event := filter is_exec t.

(** The lines written to standard output or to the log file. *)
Definition logs (t : list event) : list event := filter is_log t.

(** What is left when the log lines are dropped. *)
Definition actions (t : list event) : list event :=
  filter (fun e => negb (is_log e)) t.

(** The initial state of a process. *)
Definition st0 : St := mkSt 0 0.

(** The two replies of the guard and of the dispatcher, as
    [handle_command] writes them. *)
Definition access_denied : str := lit "Unauthorized sender. Access denied.".

Definition invalid_command (command : str) : str :=
  lit "Invalid command '" ++ command
  ++ lit "'. Send '!foundry help' for options.".

(** What the prober answers in a round whose first shell command is the
    [k]-th of the process: the container check, then the web check. *)
Definition probe (host : Host) (k : nat) : bool * bool :=
  (str_truthy (strip (stdout (sh host k HealthCheck.podman_command))),
   (returncode
      (sh host (S k) (HealthCheck.curl_command HealthCheck.default_port))
    =? 0)%Z).

(** One probe round as it shows in a trace, and the alert. *)
Definition probe_round : list event :=
  [Exec HealthCheck.podman_command;
   Exec (HealthCheck.curl_command HealthCheck.default_port)].

Definition alert (host : Host) : event :=
  Exec (send_command host HealthCheck.alert_message).

Definition is_probe_round_start (e : event) : bool :=
  match e with
  | Exec cmd => str_eqb cmd HealthCheck.podman_command
  | _ => false
  end.

(** The number of probe rounds of a trace. *)
Definition probe_rounds (t : list event) : nat :=
  List.length (filter is_probe_round_start t).

(** What the four [get] calls of the loop body read from a decoded line:
    the sender and the body, when none of them fails. *)
Definition field (d : list (str * json)) (key : str) (default : json) : json :=
  match assoc key d with
  | Some x => x
  | None => default
  end.

Definition envelope_of (data : json) : option (json * json) :=
  match data with
  | JDict d =>
      match field d (lit "envelope") (JDict []) with
      | JDict e =>
          match field e (lit "dataMessage") (JDict []) with
          | JDict m =>
              Some (field e (lit "source") (JStr []),
                    field m (lit "message") (JStr []))
          | _ => None
          end
      | _ => None
      end
  | _ => None
  end.

(** The lines a cycle of the listener goes through, given what the receive
    command, the next shell command of the process, prints. *)
Definition received_lines (host : Host) (st : St) : list str :=
  let out :=
    stdout (sh host (calls st) (SignalListener.receive_command host)) in
  if str_truthy out then split newline (strip out) else [].

(** A line that [json.loads] rejects. *)
Definition undecodable (host : Host) (raw : str) : bool :=
  match json_loads host raw with
  | None => true
  | Some _ => false
  end.

(** A line that is rejected, or that decodes to an object the loop body
    reads without an exception: the [get] calls find dicts and the body is
    a string or is falsy. *)
Definition readable (host : Host) (raw : str) : bool :=
  match json_loads host raw with
  | None => true
  | Some data =>
      match envelope_of data with
      | Some (_, JStr _) => true
      | Some (_, body) => negb (truthy body)
      | None => false
      end
  end.

(** The log line of a decode failure, for the clock reading [k]. *)
Definition decode_failure (host : Host) (k : nat) (raw : str) : event :=
  Print (strftime host k ++ lit " Failed to decode message: " ++ raw).

(** One such line per rejected line, each with the next clock reading. *)
Fixpoint decode_failures (host : Host) (k : nat) (raws : list str)
  : list event :=
  match raws with
  | [] => []
  | raw :: rest => decode_failure host k raw :: decode_failures host (S k) rest
  end.

(** Every send of the notifier succeeds. *)
Definition sends_succeed (host : Host) : Prop :=
  forall k message, returncode (sh host k (send_command host message)) = 0%Z.

(** The shell command bound to each command of the vocabulary, in the
    order of [ALLOWED_COMMANDS]. *)
Definition bindings (host : Host) : list (str * str) :=
  [ (lit "foundry status", lit "./foundry.sh status");
    (lit "foundry restart", lit "./foundry.sh restart");
    (lit "foundry health", lit "python3 ../python/health_check.py");
    (lit "foundry backup", lit "./foundry.sh backup");
    (lit "foundry uptime", lit "uptime");
    (lit "foundry space", lit "df -h /backups");
    (lit "foundry reboot", lit "sudo reboot");
    (lit "foundry help", send_command host SignalListener.help_message) ].

Fixpoint lookup (k : str) (table : list (str * str)) : option str :=
  match table with
  | [] => None
  | (k', v) :: rest => if str_eqb k k' then Some v else lookup k rest
  end.

Definition bound_command (host : Host) (command : str) : str :=
  match lookup command (bindings host) with
  | Some cmd => cmd
  | None => []
  end.

(** The local actions: the shell commands of [bindings] but the reply of
    [foundry help]. *)
Definition local_actions : list str :=
  [ lit "./foundry.sh status";
    lit "./foundry.sh restart";
    lit "python3 ../python/health_check.py";
    lit "./foundry.sh backup";
    lit "uptime";
    lit "df -h /backups";
    lit "sudo reboot" ].

(** What a turn of the listener may do to the host: run the receive
    command, a send of the notifier or a local action, print a line, and
    sleep 5. *)
Definition listener_event (host : Host) (e : event) : Prop :=
  match e with
  | Exec cmd =>
      cmd = SignalListener.receive_command host
      \/ (exists message, cmd = send_command host message)
      \/ In cmd local_actions
  | Print _ => True
  | Append _ _ => False
  | Sleep seconds => seconds = 5%Z
  end.

(** What handling one line may do: as above, without the receive command
    and without sleeping. *)
Definition dispatch_event (host : Host) (e : event) : Prop :=
  match e with
  | Exec cmd =>
      (exists message, cmd = send_command host message)
      \/ In cmd local_actions
  | Print _ => True
  | Append _ _ => False
  | Sleep _ => False
  end.

(** A computation all of whose events satisfy [P], however it ends. *)
Definition emits {A} (P : event -> Prop) (m : M A) : Prop :=
  forall st, Forall P (events (m st)).

(** A raw line that carries the vocabulary command [command] from an
    authorized sender. *)
Definition carries (host : Host) (raw command : str) : Prop :=
  exists data sender body,
    json_loads host raw = Some data
    /\ envelope_of data = Some (sender, JStr body)
    /\ json_in sender (SignalListener.AUTHORIZED_SENDERS host) = true
    /\ startswith body SignalListener.COMMAND_PREFIX = true
    /\ strip (skipn 1 body) = command
    /\ In command SignalListener.ALLOWED_COMMANDS.

(** The lines of a turn started in [st], handled one after the other. *)
Definition batch (host : Host) (st : St) : M unit :=
  let out :=
    stdout (sh host (calls st) (SignalListener.receive_command host)) in
  if str_truthy out
  then for_each (split newline (strip out))
         (SignalListener.process_message host)
  else ret tt.

Definition is_sleep (e : event) : bool :=
  match e with Sleep _ => true | _ => false end.

Definition is_append (e : event) : bool :=
  match e with Append _ _ => true | _ => false end.

Definition is_print (e : event) : bool :=
  match e with Print _ => true | _ => false end.

Definition count (f : event -> bool) (t : list event) : nat :=
  List.length (filter f t).

(** A list of names whose head, if any, is at least every name of it. *)
Definition headed (l : list str) : Prop :=
  match l with
  | [] => True
  | m :: _ => forall y, In y l -> WeeklyReport.str_leb y m = true
  end.

(** The end of the line the update script prints when it does nothing. *)
Definition nothing_to_do : str :=
  lit " No new FoundryVTT version detected. Nothing to do.".

(** 1 for a health check that ended in failure, 0 otherwise. *)
Definition failed (r : res bool) : nat :=
  match r with
  | Val false => 1
  | _ => 0
  end.

(** Whether both checks succeed in the round [i] (from 0) of a health
    check started in [st]. *)
Definition healthy_round (host : Host) (st : St) (i : nat) : bool :=
  fst (probe host (calls st + 2 * i)) && snd (probe host (calls st + 2 * i)).

(** ** Scenarios: concrete hosts the statements are evaluated on *)

Module Scenario.

(** An environment with two authorized senders. *)
Definition env (name : str) : option str :=
  if str_eqb name (lit "SIGNAL_CLI_USER") then Some (lit "+15550000")
  else if str_eqb name (lit "SIGNAL_GROUP_ID") then Some (lit "group1")
  else if str_eqb name (lit "AUTHORIZED_SENDERS") then
    Some (lit "+15550001,+15550002")
  else None.

(** The same environment without [AUTHORIZED_SENDERS]. *)
Definition env_no_senders (name : str) : option str :=
  if str_eqb name (lit "AUTHORIZED_SENDERS") then None else env name.

Definition clock (k : nat) : str :=
  lit "[2025-01-01 00:00:0" ++ str_of_int (Z.of_nat k) ++ lit "]".

Definition describe_error (cmd : str) (status : Z) : str :=
  lit "Command '" ++ cmd ++ lit "' returned non-zero exit status "
  ++ str_of_int status ++ lit ".".

Definition ok : CompletedProcess := mkCompleted 0 [].

(** A host on which every command succeeds and prints nothing, and on
    which nothing decodes. *)
Definition quiet : Host :=
  mkHost env (fun _ _ => ok) clock (fun _ => None) describe_error.

Definition quiet_no_senders : Host :=
  mkHost env_no_senders (fun _ _ => ok) clock (fun _ => None) describe_error.

Definition alice : json := JStr (lit "+15550001").
Definition mallory : json := JStr (lit "+15559999").

(** Probe outcomes: a container id on standard output, or nothing and the
    exit status of a refused connection. *)
Definition up : CompletedProcess :=
  mkCompleted 0 (lit "3f2a9c1d0b7e" ++ [newline]).
Definition refused : CompletedProcess := mkCompleted 7 [].
Definition not_found : CompletedProcess := mkCompleted 127 [].

(** A host on which every probe fails. *)
Definition down : Host :=
  mkHost env (fun _ _ => refused) clock (fun _ => None) describe_error.

(** A host on which the probes of the first round fail and the later
    ones succeed. *)
Definition recovering : Host :=
  mkHost env (fun k _ => if (k <? 2)%nat then refused else up) clock
    (fun _ => None) describe_error.

(** A host without podman and curl. *)
Definition bare : Host :=
  mkHost env (fun _ _ => not_found) clock (fun _ => None) describe_error.

Definition quoted (s : string) : str := [dquote] ++ lit s ++ [dquote].

(** One line of the receive command: alice asks for the uptime. *)
Definition uptime_line : str :=
  lit "{" ++ quoted "envelope" ++ lit ":{" ++ quoted "source" ++ lit ":"
  ++ quoted "+15550001" ++ lit "," ++ quoted "dataMessage" ++ lit ":{"
  ++ quoted "message" ++ lit ":" ++ quoted "!foundry uptime" ++ lit "}}}".

Definition uptime_envelope : json :=
  JDict [(lit "envelope",
          JDict [(lit "source", alice);
                 (lit "dataMessage",
                  JDict [(lit "message", JStr (lit "!foundry uptime"))])])].

(** A decoder that agrees with [json.loads] on the lines of the scenarios:
    [uptime_line] decodes to an envelope, [1] to a number, and [oops] is
    rejected. *)
Definition decoder (raw : str) : option json :=
  if str_eqb raw uptime_line then Some uptime_envelope
  else if str_eqb raw (lit "1") then Some (JInt 1)
  else None.

(** A host whose receive command prints [out]; every other command
    succeeds and prints nothing. *)
Definition receiving (out : str) : Host :=
  mkHost env
    (fun _ cmd =>
       if str_eqb cmd (SIGNAL_CLI_PATH ++ lit " -u +15550000 receive -t")
       then mkCompleted 0 out else ok)
    clock decoder describe_error.

(** One command in the batch. *)
Definition one_command : Host := receiving (uptime_line ++ [newline]).

(** A line that is not JSON, then one command. *)
Definition mixed : Host :=
  receiving (lit "oops" ++ [newline] ++ uptime_line ++ [newline]).

(** A JSON number, then a line that is not JSON. *)
Definition number_first : Host :=
  receiving (lit "1" ++ [newline] ++ lit "oops" ++ [newline]).

(** A second command of alice, and a decoder for the batches below. *)
Definition space_line : str :=
  lit "{" ++ quoted "envelope" ++ lit ":{" ++ quoted "source" ++ lit ":"
  ++ quoted "+15550001" ++ lit "," ++ quoted "dataMessage" ++ lit ":{"
  ++ quoted "message" ++ lit ":" ++ quoted "! foundry space" ++ lit "}}}".

Definition space_envelope : json :=
  JDict [(lit "envelope",
          JDict [(lit "source", alice);
                 (lit "dataMessage",
                  JDict [(lit "message", JStr (lit "! foundry space"))])])].

(** A delivery receipt: an envelope without a data message. *)
Definition receipt_line : str :=
  lit "{" ++ quoted "envelope" ++ lit ":{" ++ quoted "source" ++ lit ":"
  ++ quoted "+15550001" ++ lit "}}".

Definition receipt_envelope : json :=
  JDict [(lit "envelope", JDict [(lit "source", alice)])].

Definition decoder2 (raw : str) : option json :=
  if str_eqb raw space_line then Some space_envelope
  else if str_eqb raw receipt_line then Some receipt_envelope
  else decoder raw.

Definition receiving2 (out : str) : Host :=
  mkHost env
    (fun _ cmd =>
       if str_eqb cmd (SIGNAL_CLI_PATH ++ lit " -u +15550000 receive -t")
       then mkCompleted 0 out else ok)
    clock decoder2 describe_error.

(** Two commands in one batch. *)
Definition two_commands : Host :=
  receiving2 (space_line ++ [newline] ++ uptime_line ++ [newline]).


(** A receive command that prints an empty line only. *)
Definition blank : Host := receiving [newline].

(** An envelope without a [source]: somebody asks for the uptime. *)
Definition anonymous_line : str :=
  lit "{" ++ quoted "envelope" ++ lit ":{" ++ quoted "dataMessage" ++ lit ":{"
  ++ quoted "message" ++ lit ":" ++ quoted "!foundry uptime" ++ lit "}}}".

Definition anonymous_envelope : json :=
  JDict [(lit "envelope",
          JDict [(lit "dataMessage",
                  JDict [(lit "message", JStr (lit "!foundry uptime"))])])].

(** A host without [AUTHORIZED_SENDERS] that receives [anonymous_line]. *)
Definition unconfigured : Host :=
  mkHost env_no_senders
    (fun _ cmd =>
       if str_eqb cmd (SIGNAL_CLI_PATH ++ lit " -u +15550000 receive -t")
       then mkCompleted 0 (anonymous_line ++ [newline]) else ok)
    clock
    (fun raw =>
       if str_eqb raw anonymous_line then Some anonymous_envelope else None)
    describe_error.

(** A host on which every command fails after printing a line. *)
Definition printing_failure : Host :=
  mkHost env (fun _ _ => mkCompleted 125 (lit "3f2a9c1d0b7e" ++ [newline]))
    clock (fun _ => None) describe_error.

End Scenario.

(** * Properties *)

(** ** Strings *)

Lemma char_eqb_eq (a b : char) : char_eqb a b = true <-> a = b.
Proof. apply N.eqb_eq. Qed.

Lemma str_eqb_eq (s t : str) : str_eqb s t = true <-> s = t.
Proof.
  revert t; induction s as [|a s IH]; intros [|b t]; simpl;
    try (split; [discriminate | discriminate]); try tauto.
  rewrite andb_true_iff, char_eqb_eq, IH.
  split; [intros [-> ->]; reflexivity | intros E; injection E; auto].
Qed.

Lemma str_eqb_refl (s : str) : str_eqb s s = true.
Proof. apply str_eqb_eq; reflexivity. Qed.

Lemma str_in_In (x : str) (l : list str) : str_in x l = true <-> In x l.
Proof.
  unfold str_in; rewrite existsb_exists; split.
  - intros [y [Hy E]]; apply str_eqb_eq in E; subst; assumption.
  - intros H; exists x; split; [assumption | apply str_eqb_refl].
Qed.

Lemma str_truthy_true (s : str) : str_truthy s = true <-> s <> [].
Proof. destruct s; simpl; split; congruence. Qed.

(** [s.startswith(p)] for a prefix of one character. *)
Lemma startswith_prefix (s : str) (c : char) :
  startswith s [c] = true <-> exists rest, s = c :: rest.
Proof.
  destruct s as [|a s]; simpl.
  - split; [discriminate | intros [r E]; discriminate].
  - destruct (char_eqb a c) eqn:E; simpl.
    + apply char_eqb_eq in E; subst.
      destruct s; (split; [intros _; eexists; reflexivity | reflexivity]).
    + split; [discriminate |].
      intros [r H]; injection H as -> _.
      unfold char_eqb in E; rewrite N.eqb_refl in E; discriminate.
Qed.

(** [lstrip] leaves nothing exactly when every character is a space. *)
Lemma lstrip_nil (s : str) : lstrip s = [] <-> forallb isspace s = true.
Proof.
  induction s as [|c s IH]; simpl; [tauto |].
  destruct (isspace c); simpl; [exact IH | split; discriminate].
Qed.

Lemma forallb_rev {A} (f : A -> bool) (l : list A) :
  forallb f (rev l) = forallb f l.
Proof.
  induction l as [|a l IH]; simpl; [reflexivity |].
  rewrite forallb_app, IH; simpl.
  rewrite andb_true_r; apply andb_comm.
Qed.

Lemma rstrip_nil (s : str) : rstrip s = [] <-> forallb isspace s = true.
Proof.
  unfold rstrip; rewrite <- (forallb_rev isspace s), <- lstrip_nil.
  split; intros H.
  - apply (f_equal (@rev char)) in H; rewrite rev_involutive in H; exact H.
  - rewrite H; reflexivity.
Qed.

(** [s.strip()] is empty exactly when [s] is all white space. *)
Lemma strip_nil (s : str) : strip s = [] <-> forallb isspace s = true.
Proof.
  unfold strip; rewrite rstrip_nil; split.
  - intros H; induction s as [|c s IH]; simpl in *; [reflexivity |].
    destruct (isspace c) eqn:E; simpl; [auto |].
    simpl in H; rewrite E in H; discriminate.
  - intros H; induction s as [|c s IH]; simpl in *; [reflexivity |].
    apply andb_true_iff in H as [Hc Hs]; rewrite Hc; auto.
Qed.

Lemma strip_not_nil (s : str) :
  strip s <> [] <-> exists c, In c s /\ isspace c = false.
Proof.
  rewrite strip_nil; split.
  - intros H.
    destruct (forallb isspace s) eqn:E; [congruence |].
    clear H; induction s as [|c s IH]; simpl in E; [discriminate |].
    destruct (isspace c) eqn:Ec; simpl in E.
    + destruct (IH E) as [x [Hx Hs]]; exists x; simpl; auto.
    + exists c; simpl; auto.
  - intros [c [Hin Hc]] H.
    rewrite forallb_forall in H; rewrite (H c Hin) in Hc; discriminate.
Qed.

(** Decides the string tests of a goal whose operands are literals. *)
Ltac decide_tests :=
  repeat match goal with
    | |- context [str_eqb ?a ?b] =>
        let v := eval vm_compute in (str_eqb a b) in
        change (str_eqb a b) with v
    | |- context [str_in ?a ?l] =>
        let v := eval vm_compute in (str_in a l) in
        change (str_in a l) with v
    end;
  cbv beta iota delta [negb].

(** ** The monad *)

Lemma bind_ret {A B} (a : A) (k : A -> M B) (st : St) :
  bind (ret a) k st = k a st.
Proof. unfold bind, ret; simpl; destruct (k a st); reflexivity. Qed.

Lemma bind_val {A B} (m : M A) (k : A -> M B) (st : St) (a : A) :
  result (m st) = Val a ->
  bind m k st =
    mkOutcome (result (k a (final (m st)))) (final (k a (final (m st))))
              (events (m st) ++ events (k a (final (m st)))).
Proof. intros H; unfold bind; rewrite H; reflexivity. Qed.

(** How a [bind] runs once its first part has run to a value. *)
Lemma bind_run {A B} (m : M A) (k : A -> M B) (st st1 st2 : St)
    (a : A) (r : res B) (t1 t2 : list event) :
  m st = mkOutcome (Val a) st1 t1 ->
  k a st1 = mkOutcome r st2 t2 ->
  bind m k st = mkOutcome r st2 (t1 ++ t2).
Proof. intros H1 H2; unfold bind; rewrite H1; simpl; rewrite H2; reflexivity. Qed.

Lemma try_except_val {A} (m : M A) (h : exn -> M A) (st st1 : St)
    (a : A) (t : list event) :
  m st = mkOutcome (Val a) st1 t ->
  try_except m h st = mkOutcome (Val a) st1 t.
Proof. intros H; unfold try_except; rewrite H; reflexivity. Qed.

Lemma outcome_eta {A} (o : outcome A) :
  o = mkOutcome (result o) (final o) (events o).
Proof. destruct o; reflexivity. Qed.

(** ** The notifier *)

Section Notifier.

Variable host : Host.

Import SignalListener.

(** One call of the notifier runs the send command once, returns
    normally whether or not the send succeeds, and prints only when it
    fails. *)
Lemma send_signal_message_outcome (message : str) (st : St) :
  let cmd := send_command host message in
  let status := returncode (sh host (calls st) cmd) in
  send_signal_message host message st =
    mkOutcome (Val tt) (mkSt (S (calls st)) (reads st))
      (Exec cmd ::
       if (status =? 0)%Z then []
       else [Print (lit "Failed to send Signal message. Error: "
                    ++ called_process_error host cmd status)]).
Proof.
  unfold send_signal_message, try_except, subprocess_run_check, bind,
    subprocess_run; simpl.
  destruct (returncode (sh host (calls st) (send_command host message)) =? 0)%Z;
    reflexivity.
Qed.

Lemma send_signal_message_execs (message : str) (st : St) :
  execs (events (send_signal_message host message st)) =
    [Exec (send_command host message)].
Proof.
  rewrite send_signal_message_outcome; simpl.
  destruct (_ =? 0)%Z; reflexivity.
Qed.

Lemma send_signal_message_returns (message : str) (st : St) :
  result (send_signal_message host message st) = Val tt.
Proof. rewrite send_signal_message_outcome; reflexivity. Qed.

End Notifier.

(** ** Parsing and the authorization guard *)

Section Dispatch.

Variable host : Host.

Import SignalListener.

(** What [parse_command] makes of a string body. *)
Lemma parse_command_str (body : str) (st : St) :
  parse_command (JStr body) st =
    mkOutcome
      (Val (if startswith body COMMAND_PREFIX
            then Some (strip (skipn 1 body)) else None))
      st [].
Proof.
  unfold parse_command.
  destruct (startswith body COMMAND_PREFIX); reflexivity.
Qed.

(** A prefixed body with a non-empty remainder reaches [handle_command]. *)
Lemma process_envelope_command (source : json) (body : str) (st : St) :
  startswith body COMMAND_PREFIX = true ->
  strip (skipn 1 body) <> [] ->
  process_envelope host source (JStr body) st =
    handle_command host (strip (skipn 1 body)) source st.
Proof.
  intros Hp Hc.
  unfold process_envelope, bind.
  assert (Hb : truthy (JStr body) = true).
  { destruct body; [discriminate Hp | reflexivity]. }
  rewrite Hb, parse_command_str, Hp.
  cbv beta iota delta [result final events].
  apply str_truthy_true in Hc; rewrite Hc.
  destruct (handle_command host (strip (skipn 1 body)) source st);
    reflexivity.
Qed.

(** C7: a body that does not start with the prefix character is ignored
    whoever sent it: processing the envelope runs no command, sends no
    reply and writes nothing. *)
Theorem unprefixed_body_is_ignored (sender : json) (body : str) (st : St) :
  startswith body COMMAND_PREFIX = false ->
  process_envelope host sender (JStr body) st = mkOutcome (Val tt) st [].
Proof.
  intros Hp.
  unfold process_envelope, bind.
  destruct (truthy (JStr body)); [| reflexivity].
  rewrite parse_command_str, Hp; reflexivity.
Qed.

(** C1, as amended: when the sender is not in the allow-list and the
    body is a command (it starts with the prefix and something is left
    after trimming), processing the envelope is exactly one call of the
    notifier with the fixed denial, whatever the command text: the only
    command run is that send. *)
Theorem unauthorized_command_is_denied
    (sender : json) (body : str) (st : St) :
  json_in sender (AUTHORIZED_SENDERS host) = false ->
  startswith body COMMAND_PREFIX = true ->
  strip (skipn 1 body) <> [] ->
  process_envelope host sender (JStr body) st =
    send_signal_message host access_denied st
  /\ execs (events (process_envelope host sender (JStr body) st)) =
       [Exec (send_command host access_denied)].
Proof.
  intros Hs Hp Hc.
  assert (E : process_envelope host sender (JStr body) st =
              send_signal_message host access_denied st).
  { rewrite process_envelope_command by assumption.
    unfold handle_command; rewrite Hs; reflexivity. }
  split; [exact E |].
  rewrite E; apply send_signal_message_execs.
Qed.

(** Whatever the command and the sender, [handle_command] does one of
    three things. *)
Lemma handle_command_cases (command : str) (sender : json) (st : St) :
  (exists message,
      handle_command host command sender st =
        send_signal_message host message st)
  \/ (exists cmd,
        handle_command host command sender st = run_action host cmd st)
  \/ handle_command host command sender st = ret tt st.
Proof.
  unfold handle_command.
  repeat match goal with
    | |- context [if ?b then _ else _] => destruct b
    end;
    solve [ left; eexists; reflexivity
          | right; left; eexists; reflexivity
          | right; right; reflexivity ].
Qed.

Lemma handle_command_returns (command : str) (sender : json) (st : St) :
  result (handle_command host command sender st) = Val tt.
Proof.
  destruct (handle_command_cases command sender st) as [[m E] | [[c E] | E]];
    rewrite E; [apply send_signal_message_returns | reflexivity | reflexivity].
Qed.

Lemma process_envelope_str_returns (source : json) (body : str) (st : St) :
  result (process_envelope host source (JStr body) st) = Val tt.
Proof.
  unfold process_envelope, bind.
  destruct (truthy (JStr body)); [| reflexivity].
  rewrite parse_command_str; cbv beta iota delta [result final events].
  destruct (startswith body COMMAND_PREFIX); [| reflexivity].
  destruct (str_truthy (strip (skipn 1 body))); [| reflexivity].
  apply handle_command_returns.
Qed.

Lemma dict_get_dict (d : list (str * json)) (key : str) (default : json) :
  dict_get (JDict d) key default = ret (field d key default).
Proof. reflexivity. Qed.

(** A line that decodes is handled by [process_envelope] on the sender and
    the body the [get] calls read, when none of them fails. *)
Lemma process_message_decoded
    (raw : str) (data source body : json) (st : St) :
  json_loads host raw = Some data ->
  envelope_of data = Some (source, body) ->
  (forall e, result (process_envelope host source body st) <> Exc e) ->
  process_message host raw st = process_envelope host source body st.
Proof.
  intros Hl He Hr.
  unfold envelope_of in He.
  destruct data as [| | | | | |d]; try discriminate.
  destruct (field d (lit "envelope") (JDict [])) as [| | | | | |e] eqn:Ee;
    try discriminate.
  destruct (field e (lit "dataMessage") (JDict [])) as [| | | | | |m] eqn:Em;
    try discriminate.
  injection He as <- <-.
  unfold process_message, try_except, loads; rewrite Hl.
  rewrite bind_ret, dict_get_dict, bind_ret, Ee.
  rewrite dict_get_dict, bind_ret, dict_get_dict, bind_ret, Em.
  rewrite dict_get_dict, bind_ret.
  cbv zeta.
  destruct (process_envelope host _ _ st) as [r f ev] eqn:Ep; simpl in *.
  destruct r as [u | x]; [reflexivity | exfalso; apply (Hr x); reflexivity].
Qed.

(** C8: for every authorized sender, handling [foundry help] is exactly
    one call of the notifier with one fixed message, the same whoever the
    sender is; that message is the heading followed by the eight vocabulary
    commands with their prefix, one per line. *)
Theorem help_sends_the_fixed_list (sender : json) (st : St) :
  json_in sender (AUTHORIZED_SENDERS host) = true ->
  handle_command host (lit "foundry help") sender st =
    send_signal_message host help_message st
  /\ execs (events (handle_command host (lit "foundry help") sender st)) =
       [Exec (send_command host help_message)]
  /\ help_message =
       join [newline]
         (lit "Available commands:"
          :: map (fun c => COMMAND_PREFIX ++ c) ALLOWED_COMMANDS)
  /\ List.length ALLOWED_COMMANDS = 8.
Proof.
  intros Hs.
  assert (E : handle_command host (lit "foundry help") sender st =
              send_signal_message host help_message st).
  { unfold handle_command; rewrite Hs.
    decide_tests; reflexivity. }
  split; [exact E |].
  split; [rewrite E; apply send_signal_message_execs |].
  split; reflexivity.
Qed.

End Dispatch.

(** ** The guard and the dispatcher on concrete envelopes *)

Section DispatchScenarios.

Import SignalListener Scenario.

Lemma unprefixed_body_is_ignored_witness :
  startswith (lit "hello there") COMMAND_PREFIX = false
  /\ process_envelope quiet mallory (JStr (lit "hello there")) st0 =
       mkOutcome (Val tt) st0 [].
Proof.
  split; [reflexivity |].
  apply unprefixed_body_is_ignored; reflexivity.
Defined.

(** C1, as stated, fails: a sender outside the allow-list who writes an
    ordinary chat line gets no denial at all. *)
Lemma unauthorized_chat_gets_no_denial :
  json_in mallory (AUTHORIZED_SENDERS quiet) = false
  /\ events (process_envelope quiet mallory (JStr (lit "hello there")) st0)
     = []
  /\ execs (events
              (process_envelope quiet mallory (JStr (lit "hello there")) st0))
     <> [Exec (send_command quiet access_denied)].
Proof.
  split; [reflexivity |].
  split; [reflexivity |].
  vm_compute; discriminate.
Qed.

Lemma unauthorized_command_is_denied_witness :
  json_in mallory (AUTHORIZED_SENDERS quiet) = false
  /\ process_envelope quiet mallory (JStr (lit "!foundry reboot")) st0 =
       send_signal_message quiet access_denied st0
  /\ execs (events
              (process_envelope quiet mallory (JStr (lit "!foundry reboot"))
                 st0)) =
       [Exec (send_command quiet access_denied)].
Proof.
  split; [reflexivity |].
  apply unauthorized_command_is_denied;
    [reflexivity | reflexivity | vm_compute; discriminate].
Defined.


Lemma help_sends_the_fixed_list_witness :
  json_in alice (AUTHORIZED_SENDERS quiet) = true
  /\ execs (events (handle_command quiet (lit "foundry help") alice st0)) =
       [Exec (send_command quiet help_message)].
Proof.
  split; [reflexivity |].
  apply (@help_sends_the_fixed_list quiet alice st0); reflexivity.
Defined.

End DispatchScenarios.

(** ** The health monitor *)

Section Monitor.

Variable host : Host.

Import HealthCheck.

Lemma actions_app (t u : list event) :
  actions (t ++ u) = actions t ++ actions u.
Proof. apply filter_app. Qed.

Lemma probe_rounds_app (t u : list event) :
  probe_rounds (t ++ u) = probe_rounds t + probe_rounds u.
Proof. unfold probe_rounds; rewrite filter_app; apply length_app. Qed.

(** Log lines are neither actions nor probe rounds. *)
Lemma logs_only_no_actions (t : list event) : logs t = t -> actions t = [].
Proof.
  unfold logs, actions; intros H.
  induction t as [|e t IH]; [reflexivity |].
  cbn [filter] in *.
  destruct (is_log e) eqn:E; cbn [negb].
  - apply IH; injection H; auto.
  - exfalso.
    assert (L : List.length (filter is_log t) <= List.length t)
      by apply filter_length_le.
    rewrite H in L; cbn [List.length] in L; lia.
Qed.

Lemma logs_only_no_rounds (t : list event) :
  logs t = t -> probe_rounds t = 0.
Proof.
  unfold logs, probe_rounds; intros H.
  induction t as [|e t IH]; [reflexivity |].
  cbn [filter] in *.
  destruct (is_log e) eqn:E.
  - destruct e; try discriminate E; cbn [is_probe_round_start];
      apply IH; injection H; auto.
  - exfalso.
    assert (L : List.length (filter is_log t) <= List.length t)
      by apply filter_length_le.
    rewrite H in L; cbn [List.length] in L; lia.
Qed.

(** The two checks of a round answer [probe] at the current call count. *)
Lemma probe_is_the_two_checks (st : St) :
  result ((c <- check_foundry_container host ;;
           w <- check_web_server host default_port ;;
           ret (c, w)) st) = Val (probe host (calls st)).
Proof. reflexivity. Qed.

Lemma log_outcome (message : str) (st : St) :
  log host message st =
    mkOutcome (Val tt) (mkSt (calls st) (S (S (reads st))))
      [Append LOG_FILE
         (strftime host (reads st) ++ lit " " ++ message ++ [newline]);
       Print (strftime host (S (reads st)) ++ lit " " ++ message)].
Proof. reflexivity. Qed.

(** The alert runs the send command once and then logs how it went. *)
Lemma send_signal_alert_outcome (message : str) (st : St) :
  result (send_signal_alert host message st) = Val tt
  /\ actions (events (send_signal_alert host message st)) =
       [Exec (send_command host message)]
  /\ probe_rounds (events (send_signal_alert host message st)) = 0.
Proof.
  unfold send_signal_alert, try_except, subprocess_run_check, bind,
    subprocess_run; simpl.
  destruct (returncode (sh host (calls st) (send_command host message)) =? 0)%Z;
    simpl; auto.
Qed.

(** After the last attempt: the alert, then failure. *)
Lemma loop_exhausted (st : St) :
  result (health_check_loop host [] st) = Val false
  /\ actions (events (health_check_loop host [] st)) = [alert host]
  /\ probe_rounds (events (health_check_loop host [] st)) = 0.
Proof.
  destruct (send_signal_alert_outcome alert_message st) as [Hr [Ha Hp]].
  cbn [health_check_loop].
  rewrite (bind_val _ _ _ Hr); cbn [result events].
  rewrite actions_app, probe_rounds_app, Ha, Hp.
  repeat split.
Qed.

Lemma check_foundry_container_outcome (st : St) :
  check_foundry_container host st =
    mkOutcome
      (Val (str_truthy (strip (stdout (sh host (calls st) podman_command)))))
      (mkSt (S (calls st)) (reads st))
      [Exec podman_command].
Proof. reflexivity. Qed.

Lemma check_web_server_outcome (port : Z) (st : St) :
  check_web_server host port st =
    mkOutcome
      (Val (returncode (sh host (calls st) (curl_command port)) =? 0)%Z)
      (mkSt (S (calls st)) (reads st))
      [Exec (curl_command port)].
Proof. reflexivity. Qed.

(** The start of a round, up to the test of the two answers. *)
Lemma loop_round (attempt : nat) (rest : list nat) (st : St) :
  let n := str_of_int (Z.of_nat attempt) in
  let c := fst (probe host (calls st)) in
  let w := snd (probe host (calls st)) in
  let st' := mkSt (S (S (calls st))) (S (S (reads st))) in
  let after :=
    (if c && w then
       log host (lit "FoundryVTT container and web server are healthy.") ;;
       ret true
     else
       log host (lit "Attempt " ++ n ++ lit ": Foundry container healthy: "
                 ++ str_of_bool c ++ lit ", Web server healthy: "
                 ++ str_of_bool w) ;;
       sleep 5 ;;
       health_check_loop host rest) st' in
  health_check_loop host (attempt :: rest) st =
    mkOutcome (result after) (final after)
      (events (log host (lit "Health check attempt " ++ n ++ lit "...") st)
       ++ [Exec podman_command]
       ++ [Exec (curl_command default_port)]
       ++ events after).
Proof.
  intros n c w st' after.
  cbn [health_check_loop].
  eapply bind_run; [apply log_outcome |].
  eapply bind_run; [apply check_foundry_container_outcome |].
  eapply bind_run; [apply check_web_server_outcome |].
  apply outcome_eta.
Qed.

Lemma log_is_log_only (message : str) (st : St) :
  logs (events (log host message st)) = events (log host message st).
Proof. reflexivity. Qed.

(** A round in which both checks succeed ends the loop with success. *)
Lemma loop_round_healthy (attempt : nat) (rest : list nat) (st : St) :
  probe host (calls st) = (true, true) ->
  result (health_check_loop host (attempt :: rest) st) = Val true
  /\ actions (events (health_check_loop host (attempt :: rest) st)) =
       probe_round
  /\ probe_rounds (events (health_check_loop host (attempt :: rest) st)) = 1.
Proof.
  intros H.
  pose proof (loop_round attempt rest st) as E; cbv zeta in E.
  rewrite H in E; cbn [fst snd andb] in E.
  rewrite E; clear E.
  erewrite bind_run; [| apply log_outcome | reflexivity].
  cbn [result final events].
  rewrite !actions_app, !probe_rounds_app.
  rewrite (logs_only_no_actions (log_is_log_only _ _)),
    (logs_only_no_rounds (log_is_log_only _ _)).
  repeat split.
Qed.

(** A round in which a check fails sleeps and goes on with the attempts
    that are left, two shell commands later. *)
Lemma loop_round_failing (attempt : nat) (rest : list nat) (st : St) :
  fst (probe host (calls st)) && snd (probe host (calls st)) = false ->
  exists st',
    calls st' = S (S (calls st))
    /\ result (health_check_loop host (attempt :: rest) st) =
         result (health_check_loop host rest st')
    /\ actions (events (health_check_loop host (attempt :: rest) st)) =
         probe_round ++ [Sleep 5]
         ++ actions (events (health_check_loop host rest st'))
    /\ probe_rounds (events (health_check_loop host (attempt :: rest) st)) =
         S (probe_rounds (events (health_check_loop host rest st'))).
Proof.
  intros H.
  pose proof (loop_round attempt rest st) as E; cbv zeta in E.
  rewrite H in E.
  exists (mkSt (S (S (calls st))) (S (S (S (S (reads st)))))).
  split; [reflexivity |].
  rewrite E; clear E.
  erewrite bind_run; [| apply log_outcome |].
  2: { eapply bind_run; [reflexivity | apply outcome_eta]. }
  cbn [result final events calls reads].
  rewrite !actions_app, !probe_rounds_app.
  rewrite (logs_only_no_actions (log_is_log_only _ _)),
    (logs_only_no_rounds (log_is_log_only _ _)).
  repeat split.
Qed.

(** Whatever the prober answers, the loop returns, after at least one
    round when an attempt is left and at most one round per attempt. *)
Lemma loop_is_bounded (attempts : list nat) :
  forall st,
    (exists ok, result (health_check_loop host attempts st) = Val ok)
    /\ probe_rounds (events (health_check_loop host attempts st))
       <= List.length attempts
    /\ (attempts <> [] ->
        1 <= probe_rounds (events (health_check_loop host attempts st))).
Proof.
  induction attempts as [|attempt rest IH]; intros st.
  - destruct (loop_exhausted st) as [Hr [_ Hp]].
    split; [exists false; exact Hr |].
    split; [rewrite Hp; apply Nat.le_refl | congruence].
  - destruct (probe host (calls st)) as [c w] eqn:Ep.
    destruct (c && w) eqn:Ecw.
    + apply andb_true_iff in Ecw as [-> ->].
      destruct (loop_round_healthy attempt rest st Ep) as [Hr [_ Hp]].
      split; [exists true; exact Hr |].
      rewrite Hp; cbn [List.length]; split; [lia | intros _; lia].
    + destruct (loop_round_failing attempt rest st) as [st' [_ [Hr [_ Hp]]]].
      { rewrite Ep; exact Ecw. }
      destruct (IH st') as [[ok Hok] [Hle _]].
      split; [exists ok; rewrite Hr; exact Hok |].
      rewrite Hp; cbn [List.length]; split; [lia | intros _; lia].
Qed.

Lemma health_check_unfold (st : St) :
  health_check host st = health_check_loop host [1; 2; 3] st.
Proof. reflexivity. Qed.

(** C4: when the prober answers [(false, false)] at every attempt, the
    monitor makes exactly three probe rounds, each followed by a sleep of
    5, then sends the alert once and returns failure. *)
Theorem failing_prober_alerts_after_three_rounds (st : St) :
  (forall k, probe host k = (false, false)) ->
  result (health_check host st) = Val false
  /\ actions (events (health_check host st)) =
       probe_round ++ [Sleep 5]
       ++ probe_round ++ [Sleep 5]
       ++ probe_round ++ [Sleep 5]
       ++ [alert host]
  /\ probe_rounds (events (health_check host st)) = 3.
Proof.
  intros H.
  assert (F : forall s, fst (probe host (calls s)) && snd (probe host (calls s))
                        = false).
  { intros s; rewrite H; reflexivity. }
  rewrite health_check_unfold.
  destruct (loop_round_failing 1 [2; 3] st (F st))
    as [s1 [_ [R1 [A1 P1]]]].
  destruct (loop_round_failing 2 [3] s1 (F s1)) as [s2 [_ [R2 [A2 P2]]]].
  destruct (loop_round_failing 3 [] s2 (F s2)) as [s3 [_ [R3 [A3 P3]]]].
  destruct (loop_exhausted s3) as [R4 [A4 P4]].
  rewrite R1, R2, R3, R4, A1, A2, A3, A4, P1, P2, P3, P4.
  repeat split.
Qed.

(** C5: when the prober fails at the first attempt and answers
    [(true, true)] at the second, the monitor stops after exactly two
    probe rounds, sends no alert and returns success. *)
Theorem recovery_at_second_attempt (st : St) :
  fst (probe host (calls st)) && snd (probe host (calls st)) = false ->
  probe host (S (S (calls st))) = (true, true) ->
  result (health_check host st) = Val true
  /\ actions (events (health_check host st)) =
       probe_round ++ [Sleep 5] ++ probe_round
  /\ probe_rounds (events (health_check host st)) = 2
  /\ ~ In (alert host) (events (health_check host st)).
Proof.
  intros H1 H2.
  rewrite health_check_unfold.
  destruct (loop_round_failing 1 [2; 3] st H1) as [s1 [C1 [R1 [A1 P1]]]].
  rewrite <- C1 in H2.
  destruct (loop_round_healthy 2 [3] s1 H2) as [R2 [A2 P2]].
  rewrite R1, R2, A1, A2, P1, P2.
  repeat split.
  intros Hin.
  assert (Ha : In (alert host)
                 (actions (events (health_check_loop host [1; 2; 3] st)))).
  { apply filter_In; split; [exact Hin | reflexivity]. }
  rewrite A1, A2 in Ha.
  unfold alert, send_command, SIGNAL_CLI_PATH in Ha.
  cbn in Ha.
  repeat (destruct Ha as [Ha | Ha]; [discriminate Ha |]).
  exact Ha.
Qed.

(** C10: whatever the prober answers, the monitor returns after at least
    one and at most [retries] = 3 probe rounds. *)
Theorem health_check_terminates_within_retries (st : St) :
  (exists ok, result (health_check host st) = Val ok)
  /\ 1 <= probe_rounds (events (health_check host st)) <= retries.
Proof.
  rewrite health_check_unfold.
  destruct (loop_is_bounded [1; 2; 3] st) as [Hr [Hle Hge]].
  split; [exact Hr |].
  split; [apply Hge; discriminate | exact Hle].
Qed.

End Monitor.

(** ** The inbound poller *)

Section Poller.

Variable host : Host.

Import SignalListener.

Lemma logs_app (t u : list event) : logs (t ++ u) = logs t ++ logs u.
Proof. apply filter_app. Qed.

Lemma handle_command_quiet (command : str) (sender : json) (st : St) :
  sends_succeed host ->
  logs (events (handle_command host command sender st)) = []
  /\ reads (final (handle_command host command sender st)) = reads st.
Proof.
  intros Hs.
  destruct (handle_command_cases host command sender st)
    as [[m E] | [[c E] | E]]; rewrite E.
  - rewrite send_signal_message_outcome; cbn [events final reads].
    rewrite Hs; split; reflexivity.
  - split; reflexivity.
  - split; reflexivity.
Qed.

Lemma process_envelope_quiet (source body : json) (st : St) :
  sends_succeed host ->
  match body with JStr _ => true | _ => negb (truthy body) end = true ->
  result (process_envelope host source body st) = Val tt
  /\ logs (events (process_envelope host source body st)) = []
  /\ reads (final (process_envelope host source body st)) = reads st.
Proof.
  intros Hs Hb.
  destruct body as [| b | n | nz | s | l | d];
    try (unfold process_envelope; apply negb_true_iff in Hb; rewrite Hb;
         repeat split; reflexivity).
  split; [apply process_envelope_str_returns |].
  unfold process_envelope, bind.
  destruct (truthy (JStr s)); [| split; reflexivity].
  rewrite parse_command_str; cbv beta iota delta [result final events].
  destruct (startswith s COMMAND_PREFIX); [| split; reflexivity].
  destruct (str_truthy (strip (skipn 1 s))); [| split; reflexivity].
  destruct (handle_command_quiet (strip (skipn 1 s)) source st Hs) as [Hl Hr].
  cbn [events final app]; split; assumption.
Qed.

(** A rejected line is logged once, with its raw content, and skipped. *)
Lemma process_message_rejected (raw : str) (st : St) :
  json_loads host raw = None ->
  process_message host raw st =
    mkOutcome (Val tt) (mkSt (calls st) (S (reads st)))
      [decode_failure host (reads st) raw].
Proof.
  intros H.
  unfold process_message, try_except, loads, bind; rewrite H.
  reflexivity.
Qed.

Lemma process_message_readable (raw : str) (st : St) :
  sends_succeed host ->
  readable host raw = true ->
  result (process_message host raw st) = Val tt
  /\ logs (events (process_message host raw st)) =
       (if undecodable host raw then [decode_failure host (reads st) raw]
        else [])
  /\ reads (final (process_message host raw st)) =
       (if undecodable host raw then S (reads st) else reads st).
Proof.
  intros Hs Hr.
  unfold readable, undecodable in *.
  destruct (json_loads host raw) as [data |] eqn:El.
  - destruct (envelope_of data) as [[source body] |] eqn:Ee;
      [| discriminate].
    assert (Hb : match body with JStr _ => true | _ => negb (truthy body) end
                 = true).
    { destruct body; assumption. }
    destruct (process_envelope_quiet source body st Hs Hb) as [R [L F]].
    rewrite (process_message_decoded host raw st El Ee).
    + auto.
    + intros e; rewrite R; discriminate.
  - rewrite (process_message_rejected raw st El).
    repeat split.
Qed.

Lemma for_each_readable (lines : list str) :
  sends_succeed host ->
  Forall (fun raw => readable host raw = true) lines ->
  forall st,
    result (for_each lines (process_message host) st) = Val tt
    /\ logs (events (for_each lines (process_message host) st)) =
         decode_failures host (reads st) (filter (undecodable host) lines).
Proof.
  intros Hs Hall; induction Hall as [| raw rest Hraw Hrest IH]; intros st.
  - split; reflexivity.
  - destruct (process_message_readable raw st Hs Hraw) as [R [L F]].
    cbn [for_each filter].
    rewrite (bind_val _ _ _ R); cbn [result events].
    destruct (IH (final (process_message host raw st))) as [R' L'].
    split; [exact R' |].
    rewrite logs_app, L, L', F.
    destruct (undecodable host raw); reflexivity.
Qed.

(** On a host that keeps the assumptions: in a cycle whose lines are all
    readable and whose sends succeed, the lines written are exactly one
    per line that fails to decode, in order, each holding the raw line; a
    received command adds no line.  The cycle itself returns normally. *)
Lemma decode_failures_logged_on_assumptions (st : St) :
  sends_succeed host ->
  Forall (fun raw => readable host raw = true) (received_lines host st) ->
  result (listen_cycle host st) = Val tt
  /\ logs (events (listen_cycle host st)) =
       decode_failures host (reads st)
         (filter (undecodable host) (received_lines host st)).
Proof.
  intros Hs Hall.
  set (st1 := mkSt (S (calls st)) (reads st)).
  set (out := stdout (sh host (calls st) (receive_command host))).
  set (body :=
         if str_truthy out
         then for_each (split newline (strip out)) (process_message host)
         else ret tt).
  assert (B : result (body st1) = Val tt
              /\ logs (events (body st1)) =
                   decode_failures host (reads st)
                     (filter (undecodable host) (received_lines host st))).
  { unfold body, received_lines in *; fold out in Hall |- *.
    destruct (str_truthy out).
    - apply (for_each_readable Hs Hall st1).
    - split; reflexivity. }
  destruct B as [R L].
  assert (E : listen_cycle host st =
              mkOutcome (Val tt) (final (body st1))
                (([Exec (receive_command host)] ++ events (body st1))
                 ++ [Sleep 5])).
  { unfold listen_cycle.
    eapply bind_run; [| reflexivity].
    apply try_except_val.
    eapply bind_run; [reflexivity |].
    fold out; fold body; fold st1.
    rewrite (outcome_eta (body st1)) at 1; rewrite R; reflexivity. }
  rewrite E; cbn [result events].
  split; [reflexivity |].
  rewrite !logs_app, L; cbn [logs filter is_log app].
  apply app_nil_r.
Qed.

End Poller.

Section PollerScenarios.

Import SignalListener Scenario.

Lemma sends_succeed_receiving (out : str) : sends_succeed (receiving out).
Proof.
  intros k message; cbn [sh receiving].
  destruct (str_eqb _ _); reflexivity.
Qed.

(** C6, as stated, fails: a cycle that receives one command and runs it
    writes no log line for it, where the claim wants exactly one. *)
Lemma received_command_is_not_logged :
  received_lines one_command st0 = [uptime_line]
  /\ undecodable one_command uptime_line = false
  /\ events (listen_cycle one_command st0) =
       [Exec (receive_command one_command); Exec (lit "uptime"); Sleep 5]
  /\ logs (events (listen_cycle one_command st0)) = []
  /\ List.length (logs (events (listen_cycle one_command st0))) <> 1.
Proof.
  split; [reflexivity |].
  split; [reflexivity |].
  split; [reflexivity |].
  split; [reflexivity | vm_compute; discriminate].
Qed.

End PollerScenarios.

Section MonitorScenarios.

Import HealthCheck Scenario.

Lemma failing_prober_alerts_after_three_rounds_witness :
  (forall k, probe down k = (false, false))
  /\ result (health_check down st0) = Val false
  /\ probe_rounds (events (health_check down st0)) = 3.
Proof.
  assert (H : forall k, probe down k = (false, false))
    by (intros k; reflexivity).
  split; [exact H |].
  destruct (@failing_prober_alerts_after_three_rounds down st0 H)
    as [R [_ P]].
  split; assumption.
Defined.

Lemma recovery_at_second_attempt_witness :
  probe recovering 0 = (false, false)
  /\ probe recovering 2 = (true, true)
  /\ result (health_check recovering st0) = Val true
  /\ probe_rounds (events (health_check recovering st0)) = 2.
Proof.
  split; [reflexivity |].
  split; [reflexivity |].
  destruct (@recovery_at_second_attempt recovering st0)
    as [R [_ [P _]]]; [reflexivity | reflexivity |].
  split; assumption.
Defined.

End MonitorScenarios.

(** ** The primitives on examples *)

Example strip_example :
  strip (lit "  foundry help   ") = lit "foundry help".
Proof. reflexivity. Qed.

Example split_empty : split comma [] = [[]].
Proof. reflexivity. Qed.

Example split_example :
  split comma (lit "+1,+2,,") = [lit "+1"; lit "+2"; []; []].
Proof. reflexivity. Qed.

Example str_of_int_example : str_of_int 29000 = lit "29000".
Proof. reflexivity. Qed.

(** A line that decodes to something other than an object ends the batch:
    the outer handler prints the exception and the lines after it are
    never looked at. *)
Example number_first_cycle_trace :
  events (SignalListener.listen_cycle Scenario.number_first st0) =
    [Exec (SignalListener.receive_command Scenario.number_first);
     Print (Scenario.clock 0
            ++ lit " Error receiving messages: 'int' object has no attribute 'get'");
     Sleep 5].
Proof. reflexivity. Qed.

Example mixed_cycle_trace :
  events (SignalListener.listen_cycle Scenario.mixed st0) =
    [Exec (SignalListener.receive_command Scenario.mixed);
     decode_failure Scenario.mixed 0 (lit "oops");
     Exec (lit "uptime");
     Sleep 5].
Proof. reflexivity. Qed.

(** * Further properties of the scripts *)

(** ** What a computation can emit *)

Section Emits.

Variable P : event -> Prop.

Lemma emits_ret {A} (a : A) : emits P (ret a).
Proof. intros st; constructor. Qed.

Lemma emits_raise {A} (e : exn) : emits P (@raise A e).
Proof. intros st; constructor. Qed.

Lemma emits_emit (e : event) : P e -> emits P (emit e).
Proof. intros H st; repeat constructor; exact H. Qed.

Lemma emits_bind {A B} (m : M A) (k : A -> M B) :
  emits P m -> (forall a, emits P (k a)) -> emits P (bind m k).
Proof.
  intros Hm Hk st; unfold bind.
  specialize (Hm st).
  destruct (m st) as [[a | e] st1 t1]; cbn [result final events] in *.
  - apply Forall_app; split; [exact Hm | apply Hk].
  - exact Hm.
Qed.

Lemma emits_try_except {A} (m : M A) (h : exn -> M A) :
  emits P m -> (forall e, emits P (h e)) -> emits P (try_except m h).
Proof.
  intros Hm Hh st; unfold try_except.
  specialize (Hm st).
  destruct (m st) as [[a | e] st1 t1]; cbn [result final events] in *.
  - exact Hm.
  - apply Forall_app; split; [exact Hm | apply Hh].
Qed.

Lemma emits_for_each {A} (l : list A) (body : A -> M unit) :
  (forall x, emits P (body x)) -> emits P (for_each l body).
Proof.
  intros H; induction l as [|x rest IH]; cbn [for_each].
  - apply emits_ret.
  - apply emits_bind; [apply H | intros _; exact IH].
Qed.

Lemma emits_timestamp (host : Host) : emits P (timestamp host).
Proof. intros st; constructor. Qed.

Lemma emits_subprocess_run (host : Host) (cmd : str) :
  P (Exec cmd) -> emits P (subprocess_run host cmd).
Proof. intros H st; repeat constructor; exact H. Qed.

Lemma emits_subprocess_run_check (host : Host) (cmd : str) :
  P (Exec cmd) -> emits P (subprocess_run_check host cmd).
Proof.
  intros H; apply emits_bind; [apply emits_subprocess_run; exact H |].
  intros r; destruct (returncode r =? 0)%Z;
    [apply emits_ret | apply emits_raise].
Qed.

End Emits.

Lemma emits_weaken {A} (P Q : event -> Prop) (m : M A) :
  (forall e, P e -> Q e) -> emits P m -> emits Q m.
Proof.
  intros H Hm st; eapply Forall_impl; [exact H | apply Hm].
Qed.

(** ** The listener: what it runs, and that a turn always ends *)

Section ListenerSafety.

Variable host : Host.

Import SignalListener.

Lemma dispatch_event_listener (e : event) :
  dispatch_event host e -> listener_event host e.
Proof.
  destruct e; cbn [dispatch_event listener_event]; intros H;
    [right; exact H | exact I | contradiction | contradiction].
Qed.

Lemma emits_send_signal_message (message : str) :
  emits (dispatch_event host) (send_signal_message host message).
Proof.
  apply emits_try_except.
  - apply emits_bind; [| intros _; apply emits_ret].
    apply emits_subprocess_run_check; left; eexists; reflexivity.
  - intros [| ty attr | cmd status | class text];
      [apply emits_raise | apply emits_raise | apply emits_emit; exact I
      | apply emits_raise].
Qed.

Lemma emits_run_action (cmd : str) :
  In cmd local_actions ->
  emits (dispatch_event host) (run_action host cmd).
Proof.
  intros H; apply emits_bind; [| intros _; apply emits_ret].
  apply emits_subprocess_run; right; exact H.
Qed.

Lemma emits_handle_command (command : str) (sender : json) :
  emits (dispatch_event host) (handle_command host command sender).
Proof.
  unfold handle_command.
  repeat match goal with
    | |- context [if ?b then _ else _] => destruct b
    end;
    first [ apply emits_send_signal_message
          | apply emits_ret
          | apply emits_run_action; cbn [local_actions In]; tauto ].
Qed.

Lemma emits_process_envelope (source body : json) :
  emits (dispatch_event host) (process_envelope host source body).
Proof.
  unfold process_envelope.
  destruct (truthy body); [| apply emits_ret].
  apply emits_bind.
  - unfold parse_command.
    destruct body; try apply emits_raise.
    destruct (negb _); apply emits_ret.
  - intros [c |]; [| apply emits_ret].
    destruct (str_truthy c); [apply emits_handle_command | apply emits_ret].
Qed.

Lemma emits_dict_get (P : event -> Prop) (v : json) (key : str)
    (default : json) :
  emits P (dict_get v key default).
Proof. destruct v; first [apply emits_ret | apply emits_raise]. Qed.

Lemma emits_process_message (raw : str) :
  emits (dispatch_event host) (process_message host raw).
Proof.
  apply emits_try_except.
  - apply emits_bind.
    { unfold loads; destruct (json_loads host raw);
        [apply emits_ret | apply emits_raise]. }
    intros data; apply emits_bind; [apply emits_dict_get |].
    intros envelope; apply emits_bind; [apply emits_dict_get |].
    intros source; apply emits_bind; [apply emits_dict_get |].
    intros data_message; apply emits_bind; [apply emits_dict_get |].
    intros body; apply emits_process_envelope.
  - intros [| ty attr | cmd status | class text]; try apply emits_raise.
    apply emits_bind; [apply emits_timestamp |].
    intros ts; apply emits_emit; exact I.
Qed.

Lemma try_except_exc {A} (m : M A) (h : exn -> M A) (st st1 st2 : St)
    (e : exn) (r : res A) (t1 t2 : list event) :
  m st = mkOutcome (Exc e) st1 t1 ->
  h e st1 = mkOutcome r st2 t2 ->
  try_except m h st = mkOutcome r st2 (t1 ++ t2).
Proof.
  intros H1 H2; unfold try_except; rewrite H1; simpl; rewrite H2; reflexivity.
Qed.


(** A turn in terms of its batch: the receive command, the batch, the
    line of the outer handler when the batch raised, and the sleep. *)
Lemma listen_cycle_shape (st : St) :
  let st1 := mkSt (S (calls st)) (reads st) in
  let o := batch host st st1 in
  listen_cycle host st =
    mkOutcome (Val tt)
      (match result o with
       | Val _ => final o
       | Exc _ => mkSt (calls (final o)) (S (reads (final o)))
       end)
      (([Exec (receive_command host)] ++ events o)
       ++ match result o with
          | Val _ => []
          | Exc e =>
              [Print (strftime host (reads (final o))
                      ++ lit " Error receiving messages: "
                      ++ str_of_exn host e)]
          end
       ++ [Sleep 5]).
Proof.
  intros st1 o.
  assert (E : (result <- subprocess_run host (receive_command host) ;;
               if str_truthy (stdout result)
               then for_each (split newline (strip (stdout result)))
                      (process_message host)
               else ret tt) st =
              mkOutcome (result o) (final o)
                ([Exec (receive_command host)] ++ events o)).
  { eapply bind_run; [reflexivity | apply outcome_eta]. }
  unfold listen_cycle.
  destruct (result o) as [[] | e] eqn:R.
  - eapply bind_run; [apply try_except_val; exact E |].
    rewrite app_nil_l; reflexivity.
  - rewrite app_assoc.
    eapply bind_run; [| reflexivity].
    eapply try_except_exc; [exact E | reflexivity].
Qed.

Lemma emits_batch (st : St) : emits (dispatch_event host) (batch host st).
Proof.
  unfold batch.
  destruct (str_truthy _); [| apply emits_ret].
  apply emits_for_each; intros raw; apply emits_process_message.
Qed.

Lemma dispatch_event_no_sleep (t : list event) :
  Forall (dispatch_event host) t -> count is_sleep t = 0.
Proof.
  unfold count; induction 1 as [| e t He Ht IH]; [reflexivity |].
  destruct e; cbn [filter is_sleep]; try exact IH.
  contradiction.
Qed.

Lemma count_app (f : event -> bool) (t u : list event) :
  count f (t ++ u) = count f t + count f u.
Proof. unfold count; rewrite filter_app; apply length_app. Qed.

Lemma listen_cycle_one_sleep (st : St) :
  result (listen_cycle host st) = Val tt
  /\ count is_sleep (events (listen_cycle host st)) = 1.
Proof.
  rewrite listen_cycle_shape; cbn [result events].
  split; [reflexivity |].
  rewrite !count_app.
  rewrite (dispatch_event_no_sleep (emits_batch st _)).
  destruct (result (batch host st _)); reflexivity.
Qed.

(** X2: a turn of the listener always completes, whatever is received and
    however handling it fails: it returns normally, its first event is the
    receive command and its last the sleep of 5, and in between there are
    only sends, local actions and printed lines. *)
Theorem listen_cycle_always_completes (st : St) :
  result (listen_cycle host st) = Val tt
  /\ exists t,
       events (listen_cycle host st) =
         Exec (receive_command host) :: t ++ [Sleep 5]
       /\ Forall (dispatch_event host) t.
Proof.
  rewrite listen_cycle_shape; cbn [result events].
  split; [reflexivity |].
  eexists; split.
  - rewrite <- app_assoc; cbn [app]; rewrite app_assoc; reflexivity.
  - apply Forall_app; split; [apply emits_batch |].
    destruct (result (batch host st _)); repeat constructor.
Qed.

Lemma polling_never_stops (cycles : nat) (st : St) :
  result (listen_for_signal_messages host cycles st) = Val tt
  /\ count is_sleep (events (listen_for_signal_messages host cycles st))
     = cycles.
Proof.
  revert st; induction cycles as [| n IH]; intros st.
  - split; reflexivity.
  - cbn [listen_for_signal_messages].
    destruct (listen_cycle_one_sleep st) as [R C].
    rewrite (bind_val _ _ _ R); cbn [result events].
    destruct (IH (final (listen_cycle host st))) as [R' C'].
    split; [exact R' |].
    rewrite count_app, C, C'; reflexivity.
Qed.

(** X3: the listener script prints its starting line once and then
    polls: each of the first [cycles] turns of
    [listen_for_signal_messages] takes place, with exactly one sleep per
    turn, and no failure inside a turn ends the loop. *)
Theorem listener_keeps_polling (cycles : nat) (st : St) :
  let polling :=
    listen_for_signal_messages host cycles
      (mkSt (calls st) (S (reads st))) in
  signal_listener_main host cycles st =
    mkOutcome (Val tt) (final polling)
      (Print (strftime host (reads st) ++ lit " Signal listener starting...")
       :: events polling)
  /\ count is_sleep (events polling) = cycles.
Proof.
  cbv zeta.
  destruct (polling_never_stops cycles (mkSt (calls st) (S (reads st))))
    as [R C].
  split; [| exact C].
  unfold signal_listener_main.
  erewrite bind_run; [| reflexivity |].
  2: { eapply bind_run; [reflexivity |].
       rewrite (outcome_eta (listen_for_signal_messages _ _ _)), R.
       reflexivity. }
  reflexivity.
Qed.

End ListenerSafety.

(** ** The listener: lines that cannot be read, and the order of dispatch *)

Section ListenerBatch.

Variable host : Host.

Import SignalListener.


(** A line that is not readable raises an [AttributeError] before anything
    is done for it. *)
Lemma unreadable_raises (raw : str) :
  readable host raw = false ->
  exists ty attr, forall st,
    process_message host raw st =
      mkOutcome (Exc (AttributeError ty attr)) st [].
Proof.
  unfold readable; intros Hr.
  destruct (json_loads host raw) as [data |] eqn:El; [| discriminate].
  assert (S0 : forall st (k : json -> M unit),
             try_except (data <- loads host raw ;; k data)
               (fun e =>
                  match e with
                  | JSONDecodeError =>
                      ts <- timestamp host ;;
                      print (ts ++ lit " Failed to decode message: " ++ raw)
                  | _ => raise e
                  end) st =
             try_except (k data)
               (fun e =>
                  match e with
                  | JSONDecodeError =>
                      ts <- timestamp host ;;
                      print (ts ++ lit " Failed to decode message: " ++ raw)
                  | _ => raise e
                  end) st).
  { intros st k; unfold try_except, loads; rewrite El, bind_ret.
    reflexivity. }
  unfold envelope_of in Hr.
  destruct data as [| b | n | nz | s | l | d];
    try (do 2 eexists; intros st; unfold process_message; rewrite S0;
         reflexivity).
  destruct (field d (lit "envelope") (JDict [])) as [| b | n | nz | s | l | e]
    eqn:Ee;
    try (do 2 eexists; intros st; unfold process_message; rewrite S0;
         unfold try_except; rewrite dict_get_dict, bind_ret, Ee;
         reflexivity).
  destruct (field e (lit "dataMessage") (JDict []))
    as [| b | n | nz | s | l | m] eqn:Em;
    try (do 2 eexists; intros st; unfold process_message; rewrite S0;
         unfold try_except; rewrite dict_get_dict, bind_ret, Ee;
         rewrite dict_get_dict, bind_ret, dict_get_dict, bind_ret, Em;
         reflexivity).
  destruct (field m (lit "message") (JStr [])) as [| b | n | nz | s | l | d']
    eqn:Eb; try discriminate;
    apply negb_false_iff in Hr;
    (do 2 eexists; intros st; unfold process_message; rewrite S0;
     unfold try_except; rewrite dict_get_dict, bind_ret, Ee;
     rewrite dict_get_dict, bind_ret, dict_get_dict, bind_ret, Em;
     rewrite dict_get_dict, bind_ret, Eb;
     unfold process_envelope; rewrite Hr; reflexivity).
Qed.



(** X21: an envelope without text is ignored in silence.  When the body
    the loop reads is falsy (the [message] is missing, null, empty or
    zero), the line has no effect at all; and the body read is the empty
    string when the decoded object has no [envelope], or its envelope no
    [dataMessage], or its data message no [message]. *)
Theorem envelope_without_text_is_ignored
    (raw : str) (data source body : json) (st : St) :
  json_loads host raw = Some data ->
  envelope_of data = Some (source, body) ->
  truthy body = false ->
  process_message host raw st = mkOutcome (Val tt) st []
  /\ (forall d e m,
        assoc (lit "envelope") d = None
        \/ (assoc (lit "envelope") d = Some (JDict e)
            /\ (assoc (lit "dataMessage") e = None
                \/ (assoc (lit "dataMessage") e = Some (JDict m)
                    /\ assoc (lit "message") m = None))) ->
        exists sender, envelope_of (JDict d) = Some (sender, JStr [])).
Proof.
  intros Hl He Hb; split.
  - assert (P : process_envelope host source body st =
                mkOutcome (Val tt) st []).
    { unfold process_envelope; rewrite Hb; reflexivity. }
    rewrite (process_message_decoded host raw st Hl He); [exact P |].
    intros e; rewrite P; discriminate.
  - intros d e m H; unfold envelope_of, field.
    destruct H as [-> | [-> [-> | [-> ->]]]]; eexists; reflexivity.
Qed.

End ListenerBatch.

(** ** The dispatcher: the table of the vocabulary *)

Section DispatchTable.

Variable host : Host.

Import SignalListener.

Lemma vocabulary_cases (command : str) :
  In command ALLOWED_COMMANDS ->
  command = lit "foundry status" \/ command = lit "foundry restart"
  \/ command = lit "foundry health" \/ command = lit "foundry backup"
  \/ command = lit "foundry uptime" \/ command = lit "foundry space"
  \/ command = lit "foundry reboot" \/ command = lit "foundry help".
Proof.
  unfold ALLOWED_COMMANDS; cbn [In]; intros H.
  repeat (destruct H as [H | H]; [symmetry in H; tauto |]).
  contradiction.
Qed.

(** An authorized sender's vocabulary command runs the shell command the
    table binds to it, and nothing else. *)
Lemma handle_command_bound (command : str) (sender : json) (st : St) :
  json_in sender (AUTHORIZED_SENDERS host) = true ->
  In command ALLOWED_COMMANDS ->
  execs (events (handle_command host command sender st)) =
    [Exec (bound_command host command)]
  /\ (command <> lit "foundry help" ->
      events (handle_command host command sender st) =
        [Exec (bound_command host command)]
      /\ In (bound_command host command) local_actions).
Proof.
  intros Hs Hc.
  apply vocabulary_cases in Hc.
  unfold handle_command; rewrite Hs.
  repeat (destruct Hc as [Hc | Hc]);
    subst command; decide_tests;
    (split; [| intros Hn]);
    try (cbn [local_actions In]; first [reflexivity | tauto]).
  unfold bound_command, bindings, lookup; decide_tests.
  apply send_signal_message_execs.
Qed.

(** X5: the vocabulary and the branches of [handle_command] agree: for an
    authorized sender each of the eight commands runs exactly the shell
    command bound to it; the seven commands other than [foundry help] run
    a local action and send no reply. *)
Theorem vocabulary_is_bound (command : str) (sender : json) (st : St) :
  json_in sender (AUTHORIZED_SENDERS host) = true ->
  In command ALLOWED_COMMANDS ->
  map fst (bindings host) = ALLOWED_COMMANDS
  /\ execs (events (handle_command host command sender st)) =
       [Exec (bound_command host command)]
  /\ (command <> lit "foundry help" ->
      events (handle_command host command sender st) =
        [Exec (bound_command host command)]
      /\ In (bound_command host command) local_actions).
Proof.
  intros Hs Hc; split; [reflexivity |].
  apply handle_command_bound; assumption.
Qed.


(** A line that carries a command is handled by running what the table
    binds to the command. *)
Lemma carries_runs (raw command : str) (st : St) :
  carries host raw command ->
  result (process_message host raw st) = Val tt
  /\ execs (events (process_message host raw st)) =
       [Exec (bound_command host command)].
Proof.
  intros [data [sender [body [El [Ee [Hs [Hp [Hc Hin]]]]]]]].
  assert (Hne : strip (skipn 1 body) <> []).
  { rewrite Hc; intros E; rewrite E in Hin.
    apply vocabulary_cases in Hin.
    repeat (destruct Hin as [Hin | Hin]; [discriminate Hin |]).
    discriminate Hin. }
  rewrite (process_message_decoded host raw st El Ee).
  - split; [apply process_envelope_str_returns |].
    rewrite process_envelope_command, Hc by assumption.
    apply handle_command_bound; assumption.
  - intros e; rewrite process_envelope_str_returns; discriminate.
Qed.

Lemma execs_app (t u : list event) : execs (t ++ u) = execs t ++ execs u.
Proof. apply filter_app. Qed.

Lemma for_each_carries (lines commands : list str) :
  Forall2 (carries host) lines commands ->
  forall st,
    result (for_each lines (process_message host) st) = Val tt
    /\ execs (events (for_each lines (process_message host) st)) =
         map (fun c => Exec (bound_command host c)) commands.
Proof.
  induction 1 as [| raw c lines commands Hc Hrest IH]; intros st.
  - split; reflexivity.
  - destruct (carries_runs st Hc) as [R E].
    cbn [for_each map].
    rewrite (bind_val _ _ _ R); cbn [result events].
    destruct (IH (final (process_message host raw st))) as [R' E'].
    split; [exact R' |].
    rewrite execs_app, E, E'; reflexivity.
Qed.

(** X7: dispatch follows the order of receipt: when each line of a batch
    carries a vocabulary command from an authorized sender, the shell
    commands of the turn are the receive command and then, line by line
    in the order received, the command bound to each. *)
Theorem commands_run_in_receipt_order (commands : list str) (st : St) :
  Forall2 (carries host) (received_lines host st) commands ->
  execs (events (listen_cycle host st)) =
    Exec (receive_command host)
    :: map (fun c => Exec (bound_command host c)) commands.
Proof.
  intros H.
  assert (B : result (batch host st (mkSt (S (calls st)) (reads st)))
              = Val tt
              /\ execs (events (batch host st
                                  (mkSt (S (calls st)) (reads st)))) =
                   map (fun c => Exec (bound_command host c)) commands).
  { unfold batch; unfold received_lines in H; cbv zeta in H.
    destruct (str_truthy _).
    - apply for_each_carries; exact H.
    - inversion H; split; reflexivity. }
  destruct B as [R E].
  rewrite listen_cycle_shape; cbv zeta; rewrite R; cbn [events].
  rewrite !execs_app, E; cbn [execs filter is_exec app].
  rewrite app_nil_r; reflexivity.
Qed.

End DispatchTable.

(** ** Trimming and splitting *)

Lemma lstrip_decompose (s : str) :
  exists l, s = l ++ lstrip s /\ forallb isspace l = true.
Proof.
  induction s as [| c s [l [E F]]]; [exists []; split; reflexivity |].
  cbn [lstrip]; destruct (isspace c) eqn:Ec.
  - exists (c :: l); cbn [app forallb]; rewrite Ec, F, <- E; auto.
  - exists []; split; reflexivity.
Qed.

Lemma lstrip_head (s : str) (a : char) :
  hd_error (lstrip s) = Some a -> isspace a = false.
Proof.
  induction s as [| c s IH]; cbn [lstrip]; [discriminate |].
  destruct (isspace c) eqn:Ec; [exact IH |].
  cbn [hd_error]; intros H; injection H as <-; exact Ec.
Qed.

Lemma lstrip_app_nonspace (l : str) (c : char) :
  isspace c = false -> lstrip (l ++ [c]) = lstrip l ++ [c].
Proof.
  intros Hc; induction l as [| a l IH]; cbn [app lstrip].
  - rewrite Hc; reflexivity.
  - destruct (isspace a); [exact IH | reflexivity].
Qed.

Lemma rstrip_cons_nonspace (c : char) (s : str) :
  isspace c = false -> rstrip (c :: s) = c :: rstrip s.
Proof.
  intros Hc; unfold rstrip; cbn [rev].
  rewrite lstrip_app_nonspace by exact Hc.
  rewrite rev_app_distr; reflexivity.
Qed.

Lemma rstrip_decompose (s : str) :
  exists r, s = rstrip s ++ r /\ forallb isspace r = true.
Proof.
  destruct (lstrip_decompose (rev s)) as [l [E F]].
  exists (rev l); split.
  - unfold rstrip; rewrite <- rev_app_distr, <- E; symmetry.
    apply rev_involutive.
  - rewrite forallb_rev; exact F.
Qed.

(** What [s.strip()] is: [s] without a run of white space at each end,
    with no white space left at either end. *)
Lemma strip_spec (s : str) :
  (exists l r,
      s = l ++ strip s ++ r
      /\ forallb isspace l = true /\ forallb isspace r = true)
  /\ (forall a,
        hd_error (strip s) = Some a \/ hd_error (rev (strip s)) = Some a ->
        isspace a = false).
Proof.
  split.
  - destruct (lstrip_decompose s) as [l [El Fl]].
    destruct (rstrip_decompose (lstrip s)) as [r [Er Fr]].
    exists l, r; unfold strip; rewrite <- Er; auto.
  - intros a [H | H]; unfold strip in H.
    + destruct (lstrip s) as [| c t] eqn:E; [discriminate H |].
      assert (Hc : isspace c = false)
        by (apply (lstrip_head s); rewrite E; reflexivity).
      rewrite rstrip_cons_nonspace in H by exact Hc.
      injection H as <-; exact Hc.
    + unfold rstrip in H; rewrite rev_involutive in H.
      exact (lstrip_head _ H).
Qed.

Lemma split_not_nil (sep : char) (s : str) : split sep s <> [].
Proof.
  destruct s as [| c s]; cbn [split]; [discriminate |].
  destruct (char_eqb c sep); [discriminate |].
  destruct (split sep s); discriminate.
Qed.

(** Joining the pieces of [s.split(sep)] with [sep] gives [s] back. *)
Lemma join_split (sep : char) (s : str) : join [sep] (split sep s) = s.
Proof.
  induction s as [| c s IH]; [reflexivity |].
  cbn [split]; destruct (char_eqb c sep) eqn:E.
  - apply char_eqb_eq in E; subst c.
    pose proof (split_not_nil sep s) as N.
    destruct (split sep s) as [| w ws]; [contradiction |].
    cbn [join app] in *; rewrite IH; reflexivity.
  - pose proof (split_not_nil sep s) as N.
    destruct (split sep s) as [| w ws]; [contradiction |].
    destruct ws; cbn [join app] in *; rewrite <- IH; reflexivity.
Qed.

Lemma split_no_sep (sep : char) (s : str) :
  Forall (fun w => ~ In sep w) (split sep s).
Proof.
  induction s as [| c s IH]; [repeat constructor; intros [] |].
  cbn [split]; destruct (char_eqb c sep) eqn:E.
  - constructor; [intros [] | exact IH].
  - destruct (split sep s) as [| w ws]; [repeat constructor |].
    + intros [H | []]; subst; unfold char_eqb in E;
        rewrite N.eqb_refl in E; discriminate.
    + inversion IH as [| ? ? Hw Hws]; subst.
      constructor; [| exact Hws].
      intros [H | H]; [| exact (Hw H)].
      subst; unfold char_eqb in E; rewrite N.eqb_refl in E; discriminate.
Qed.

Lemma split_word (sep : char) (w s : str) :
  ~ In sep w -> split sep (w ++ sep :: s) = w :: split sep s.
Proof.
  induction w as [| c w IH]; intros H; cbn [app split].
  - unfold char_eqb; rewrite N.eqb_refl; reflexivity.
  - destruct (char_eqb c sep) eqn:E.
    + apply char_eqb_eq in E; subst; contradiction H; left; reflexivity.
    + rewrite IH by (intros Hin; apply H; right; exact Hin); reflexivity.
Qed.

Lemma split_single (sep : char) (w : str) :
  ~ In sep w -> split sep w = [w].
Proof.
  induction w as [| c w IH]; intros H; cbn [split]; [reflexivity |].
  destruct (char_eqb c sep) eqn:E.
  - apply char_eqb_eq in E; subst; contradiction H; left; reflexivity.
  - rewrite IH by (intros Hin; apply H; right; exact Hin); reflexivity.
Qed.

(** Splitting what was joined with [sep] gives the pieces back, when no
    piece holds [sep]. *)
Lemma split_join (sep : char) (l : list str) :
  l <> [] -> Forall (fun w => ~ In sep w) l ->
  split sep (join [sep] l) = l.
Proof.
  intros N H; induction H as [| w ws Hw Hws IH]; [contradiction |].
  destruct ws as [| w' ws'].
  - cbn [join]; apply split_single; exact Hw.
  - change (join [sep] (w :: w' :: ws'))
      with (w ++ sep :: join [sep] (w' :: ws')).
    rewrite split_word by exact Hw.
    rewrite IH by discriminate; reflexivity.
Qed.

Section ParsingAndAllowList.

Variable host : Host.

Import SignalListener.

(** X8: for a string body [parse_command] never raises and leaves the
    state alone.  It gives [None] exactly when the body does not start
    with the prefix; otherwise the command it gives is what follows the
    prefix without the white space around it: white space, the command,
    white space make up the rest of the body, and the command neither
    starts nor ends with white space. *)
Theorem parse_command_trims (body : str) (st : St) :
  exists command,
    parse_command (JStr body) st = mkOutcome (Val command) st []
    /\ (command = None <-> startswith body COMMAND_PREFIX = false)
    /\ (forall c, command = Some c ->
          (exists l r,
              body = COMMAND_PREFIX ++ l ++ c ++ r
              /\ forallb isspace l = true /\ forallb isspace r = true)
          /\ (forall a,
                hd_error c = Some a \/ hd_error (rev c) = Some a ->
                isspace a = false)).
Proof.
  rewrite parse_command_str.
  destruct (startswith body COMMAND_PREFIX) eqn:Hp.
  - eexists; split; [reflexivity |].
    split; [split; discriminate |].
    intros c H; injection H as <-.
    apply startswith_prefix in Hp as [rest ->].
    cbn [skipn].
    destruct (strip_spec rest) as [[l [r [E [Fl Fr]]]] Hends].
    split; [| exact Hends].
    exists l, r; cbn [COMMAND_PREFIX app]; rewrite <- E; auto.
  - eexists; split; [reflexivity |].
    split; [split; reflexivity | discriminate].
Qed.

(** X9: when [AUTHORIZED_SENDERS] holds identities joined by commas, none
    of them with a comma in it, the allow-list is exactly these
    identities, and a sender is authorized exactly when it is one of them,
    character for character (nothing is trimmed). *)
Theorem allow_list_is_what_was_configured (ids : list str) :
  ids <> [] ->
  Forall (fun w => ~ In comma w) ids ->
  getenv host (lit "AUTHORIZED_SENDERS") = Some (join [comma] ids) ->
  AUTHORIZED_SENDERS host = ids
  /\ forall sender,
       json_in (JStr sender) (AUTHORIZED_SENDERS host) = true
       <-> In sender ids.
Proof.
  intros N H E.
  assert (A : AUTHORIZED_SENDERS host = ids).
  { unfold AUTHORIZED_SENDERS, getenv_default; rewrite E.
    apply split_join; assumption. }
  split; [exact A |].
  intros sender; rewrite A; apply str_in_In.
Qed.

(** X10: whatever the environment, the allow-list is never empty, its
    entries joined by commas are the value of the variable, no entry
    holds a comma, and so a sender with a comma in its identity, like a
    sender that is not a string, is never authorized. *)
Theorem allow_list_entries :
  AUTHORIZED_SENDERS host <> []
  /\ join [comma] (AUTHORIZED_SENDERS host) =
       getenv_default host (lit "AUTHORIZED_SENDERS") []
  /\ Forall (fun w => ~ In comma w) (AUTHORIZED_SENDERS host)
  /\ (forall sender,
        In comma sender ->
        json_in (JStr sender) (AUTHORIZED_SENDERS host) = false)
  /\ (forall sender,
        (forall s, sender <> JStr s) ->
        json_in sender (AUTHORIZED_SENDERS host) = false).
Proof.
  unfold AUTHORIZED_SENDERS.
  split; [apply split_not_nil |].
  split; [apply join_split |].
  split; [apply split_no_sep |].
  split.
  - intros sender Hc.
    destruct (json_in _ _) eqn:E; [| reflexivity].
    apply str_in_In in E.
    pose proof (split_no_sep comma
                  (getenv_default host (lit "AUTHORIZED_SENDERS") [])) as F.
    rewrite Forall_forall in F; contradiction (F sender E Hc).
  - intros sender H; destruct sender; try reflexivity.
    contradiction (H s); reflexivity.
Qed.

(** X11: a receive command that prints nothing makes a turn of the
    receive command and the sleep alone; one that prints white space only
    makes the loop body handle a single empty line, which does not decode
    and is logged as such. *)
Theorem blank_output_turn (st : St) :
  let out := stdout (sh host (calls st) (receive_command host)) in
  strip out = [] ->
  json_loads host [] = None ->
  events (listen_cycle host st) =
    Exec (receive_command host)
    :: (if str_truthy out then [decode_failure host (reads st) []] else [])
    ++ [Sleep 5].
Proof.
  intros out Hs Hl.
  assert (B : batch host st (mkSt (S (calls st)) (reads st)) =
              mkOutcome (Val tt)
                (mkSt (S (calls st))
                   (if str_truthy out then S (reads st) else reads st))
                (if str_truthy out
                 then [decode_failure host (reads st) []] else [])).
  { unfold batch; fold out.
    destruct (str_truthy out); [| reflexivity].
    rewrite Hs; cbn [split for_each].
    erewrite bind_run;
      [| apply (process_message_rejected host [] _ Hl) | reflexivity].
    reflexivity. }
  rewrite listen_cycle_shape; cbv zeta; rewrite B; cbn [result events app].
  reflexivity.
Qed.

End ParsingAndAllowList.

(** ** The health monitor: verdict and accounting *)

Section MonitorVerdict.

Variable host : Host.

Import HealthCheck.

Lemma probe_healthy (k : nat) :
  fst (probe host k) && snd (probe host k) = true ->
  probe host k = (true, true).
Proof.
  destruct (probe host k) as [c w]; cbn [fst snd]; intros H.
  apply andb_true_iff in H as [-> ->]; reflexivity.
Qed.

Lemma count_sleep_actions (t : list event) :
  count is_sleep (actions t) = count is_sleep t.
Proof.
  unfold count, actions; induction t as [| e t IH]; [reflexivity |].
  destruct e; cbn [filter is_log negb is_sleep List.length];
    rewrite ?IH; reflexivity.
Qed.

Lemma alert_is_action (t : list event) :
  In (alert host) t <-> In (alert host) (actions t).
Proof.
  unfold actions; rewrite filter_In; split; [| tauto].
  intros H; split; [exact H | reflexivity].
Qed.

(** The alert is none of the events of a probe round. *)
Lemma alert_not_in_rounds (t : list event) :
  Forall (fun e => In e (Sleep 5 :: probe_round)) t -> ~ In (alert host) t.
Proof.
  intros F Hin; rewrite Forall_forall in F.
  specialize (F _ Hin).
  unfold alert, send_command, SIGNAL_CLI_PATH, probe_round in F.
  cbn in F.
  repeat (destruct F as [F | F]; [discriminate F |]).
  exact F.
Qed.

Lemma probe_round_events :
  Forall (fun e => In e (Sleep 5 :: probe_round)) probe_round.
Proof.
  unfold probe_round.
  constructor; [right; left; reflexivity |].
  constructor; [right; right; left; reflexivity | constructor].
Qed.

Lemma sleep_event :
  Forall (fun e => In e (Sleep 5 :: probe_round)) [Sleep 5].
Proof. constructor; [left; reflexivity | constructor]. Qed.

(** X12: the verdict of the monitor.  It reports success exactly when
    both checks succeed in one of the three rounds; it stops at the first
    such round, having slept once after each round that failed; and the
    alert is sent exactly when the verdict is failure. *)
Theorem health_check_verdict (st : St) :
  let h := healthy_round host st in
  result (health_check host st) = Val (h 0 || h 1 || h 2)
  /\ probe_rounds (events (health_check host st)) =
       (if h 0 then 1 else if h 1 then 2 else 3)
  /\ count is_sleep (events (health_check host st)) =
       (if h 0 then 0 else if h 1 then 1 else if h 2 then 2 else 3)
  /\ (In (alert host) (events (health_check host st)) <->
      result (health_check host st) = Val false).
Proof.
  intros h; unfold h, healthy_round.
  rewrite health_check_unfold, alert_is_action, <- count_sleep_actions.
  replace (calls st + 2 * 0) with (calls st) by lia.
  replace (calls st + 2 * 1) with (S (S (calls st))) by lia.
  replace (calls st + 2 * 2) with (S (S (S (S (calls st))))) by lia.
  destruct (fst (probe host (calls st)) && snd (probe host (calls st)))
    eqn:H0.
  { destruct (@loop_round_healthy host 1 [2; 3] st (probe_healthy _ H0))
      as [R [A P]].
    rewrite R, A, P; cbn [orb].
    repeat split; try discriminate.
    intros Hin; exfalso; revert Hin; apply alert_not_in_rounds.
    repeat (apply Forall_app; split);
      first [apply probe_round_events | apply sleep_event]. }
  destruct (@loop_round_failing host 1 [2; 3] st H0) as [s1 [C1 [R1 [A1 P1]]]].
  rewrite <- C1.
  destruct (fst (probe host (calls s1)) && snd (probe host (calls s1)))
    eqn:H1.
  { destruct (@loop_round_healthy host 2 [3] s1 (probe_healthy _ H1))
      as [R [A P]].
    rewrite R1, A1, P1, R, A, P; cbn [orb].
    repeat split; try discriminate.
    intros Hin; exfalso; revert Hin; apply alert_not_in_rounds.
    repeat (apply Forall_app; split);
      first [apply probe_round_events | apply sleep_event]. }
  destruct (@loop_round_failing host 2 [3] s1 H1) as [s2 [C2 [R2 [A2 P2]]]].
  replace (S (S (calls s1))) with (calls s2) by (rewrite C2; reflexivity).
  destruct (fst (probe host (calls s2)) && snd (probe host (calls s2)))
    eqn:H2.
  { destruct (@loop_round_healthy host 3 [] s2 (probe_healthy _ H2))
      as [R [A P]].
    rewrite R1, A1, P1, R2, A2, P2, R, A, P; cbn [orb].
    repeat split; try discriminate.
    intros Hin; exfalso; revert Hin; apply alert_not_in_rounds.
    repeat (apply Forall_app; split);
      first [apply probe_round_events | apply sleep_event]. }
  destruct (@loop_round_failing host 3 [] s2 H2) as [s3 [C3 [R3 [A3 P3]]]].
  destruct (@loop_exhausted host s3) as [R4 [A4 P4]].
  rewrite R1, A1, P1, R2, A2, P2, R3, A3, P3, R4, A4, P4; cbn [orb].
  repeat split.
  intros _; rewrite !in_app_iff; cbn [In]; tauto.
Qed.

Lemma loop_accounting (attempts : list nat) :
  forall st,
    let o := health_check_loop host attempts st in
    calls (final o) =
      calls st + 2 * probe_rounds (events o) + failed (result o)
    /\ count is_append (events o) =
         2 * probe_rounds (events o) + failed (result o)
    /\ count is_print (events o) = count is_append (events o)
    /\ reads (final o) = reads st + 2 * count is_append (events o).
Proof.
  assert (Fp : str_eqb podman_command podman_command = true)
    by apply str_eqb_refl.
  assert (Fc : str_eqb (curl_command default_port) podman_command = false)
    by reflexivity.
  induction attempts as [| attempt rest IH]; intros st; cbv zeta.
  - cbn [health_check_loop].
    unfold send_signal_alert, try_except, subprocess_run_check, bind,
      subprocess_run; simpl.
    destruct (returncode (sh host (calls st) (send_command host alert_message))
              =? 0)%Z; simpl; repeat split; lia.
  - pose proof (@loop_round host attempt rest st) as E; cbv zeta in E.
    rewrite log_outcome in E; cbn [events] in E.
    destruct (fst (probe host (calls st)) && snd (probe host (calls st))).
    + rewrite E; clear E.
      erewrite bind_run; [| apply log_outcome | reflexivity].
      cbn [result final events calls reads failed].
      rewrite !count_app, !probe_rounds_app.
      cbn [count probe_rounds filter is_append is_print
             is_probe_round_start List.length app].
      rewrite Fp, Fc; cbn [List.length]; repeat split; lia.
    + rewrite E; clear E.
      erewrite bind_run; [| apply log_outcome |].
      2: { eapply bind_run; [reflexivity | apply outcome_eta]. }
      cbn [result final events calls reads].
      destruct (IH (mkSt (S (S (calls st))) (S (S (S (S (reads st)))))))
        as [Hc [Ha [Hp Hr]]].
      cbn [calls reads] in Hc, Hr.
      rewrite !count_app, !probe_rounds_app.
      cbn [count probe_rounds filter is_append is_print
             is_probe_round_start List.length app].
      rewrite Fp, Fc; cbn [List.length].
      unfold count, probe_rounds in *.
      repeat split; lia.
Qed.

(** X13: the accounting of a health check.  It runs two shell commands
    per probe round and one more for the alert when it fails; every
    message is appended to the log file and printed, two messages per
    round and one for the alert, each with a clock reading of its own. *)
Theorem health_check_accounting (st : St) :
  let o := health_check host st in
  calls (final o) = calls st + 2 * probe_rounds (events o) + failed (result o)
  /\ count is_append (events o) =
       2 * probe_rounds (events o) + failed (result o)
  /\ count is_print (events o) = count is_append (events o)
  /\ reads (final o) = reads st + 2 * count is_append (events o).
Proof.
  cbv zeta; rewrite health_check_unfold.
  apply (loop_accounting [1; 2; 3] st).
Qed.

End MonitorVerdict.

(** ** The notifiers of the four scripts *)

Section Notifiers.

Variable host : Host.

Lemma check_and_update_send_outcome (message : str) (st : St) :
  let cmd := send_command host message in
  let status := returncode (sh host (calls st) cmd) in
  CheckAndUpdate.send_signal_message host message st =
    mkOutcome (Val tt) (mkSt (S (calls st)) (S (reads st)))
      [Exec cmd;
       Print (strftime host (reads st)
              ++ if (status =? 0)%Z then lit " Notification sent."
                 else lit " Failed to send Signal message: "
                      ++ called_process_error host cmd status)].
Proof.
  unfold CheckAndUpdate.send_signal_message, try_except,
    subprocess_run_check, bind, subprocess_run; simpl.
  destruct (returncode (sh host (calls st) (send_command host message)) =? 0)%Z;
    reflexivity.
Qed.

Lemma notify_send_returns (message : str) (st : St) :
  result (NotifySignal.send_signal_message host message st) = Val tt
  /\ execs (events (NotifySignal.send_signal_message host message st)) =
       [Exec (send_command host message)].
Proof.
  unfold NotifySignal.send_signal_message, try_except,
    subprocess_run_check, bind, subprocess_run; simpl.
  destruct (_ =? 0)%Z; split; reflexivity.
Qed.


(** X15: [notify_signal.py] called without a message prints the usage
    line, sends nothing and exits with status 1; called with one it sends
    the first argument exactly once, ignores any further argument, and
    exits with status 0 even when the send fails. *)
Theorem notify_main_exit_status (argv : list str) (st : St) :
  match argv with
  | _ :: message :: _ =>
      result (NotifySignal.main host argv st) = Val 0%Z
      /\ execs (events (NotifySignal.main host argv st)) =
           [Exec (send_command host message)]
  | _ =>
      NotifySignal.main host argv st =
        mkOutcome (Val 1%Z) st [Print NotifySignal.usage]
  end.
Proof.
  destruct argv as [| program [| message rest]]; try reflexivity.
  unfold NotifySignal.main.
  cbn [List.length Nat.ltb Nat.leb nth].
  destruct (notify_send_returns message st) as [R E].
  rewrite (bind_val _ _ _ R); cbn [result events ret].
  split; [reflexivity |].
  rewrite app_nil_r; exact E.
Qed.

End Notifiers.

(** ** The update script *)

Section Update.

Variable host : Host.

Import CheckAndUpdate.

Lemma get_current_foundry_version_outcome (st : St) :
  let r := sh host (calls st) inspect_command in
  get_current_foundry_version host st =
    mkOutcome
      (Val (if (returncode r =? 0)%Z then Some (strip (stdout r)) else None))
      (mkSt (S (calls st)) (reads st))
      [Exec inspect_command].
Proof.
  unfold get_current_foundry_version, bind, subprocess_run; simpl.
  destruct (_ =? 0)%Z; reflexivity.
Qed.

Lemma version_neb_refl (v : option str) : version_neb v v = false.
Proof. destruct v; cbn; [rewrite str_eqb_refl |]; reflexivity. Qed.

Lemma version_neb_neq (v w : option str) :
  v <> w -> version_neb v w = true.
Proof.
  destruct v as [s |], w as [t |]; cbn; intros H; try reflexivity.
  - destruct (str_eqb s t) eqn:E; [| reflexivity].
    apply str_eqb_eq in E; subst; contradiction H; reflexivity.
  - contradiction H; reflexivity.
Qed.

Lemma update_if_new_idle
    (current_version available_version : option str) (st : St) :
  available_version = None \/ available_version = Some []
  \/ available_version = current_version ->
  update_if_new host current_version available_version st =
    mkOutcome (Val tt) (mkSt (calls st) (S (reads st)))
      [Print (strftime host (reads st) ++ nothing_to_do)].
Proof.
  intros H.
  assert (T : version_truthy available_version
              && version_neb available_version current_version = false).
  { destruct H as [-> | [-> | ->]]; try reflexivity.
    rewrite version_neb_refl; apply andb_false_r. }
  unfold update_if_new; rewrite T; reflexivity.
Qed.

(** X16: as the script stands, with the placeholder for the version
    check, a run never updates anything: whatever docker answers, it runs
    the inspect command alone, prints the current image ([None] when the
    inspection failed) and that there is nothing to do; it makes no
    backup, touches no container and sends no message. *)
Theorem main_never_updates (st : St) :
  let r := sh host (calls st) inspect_command in
  main host st =
    mkOutcome (Val tt) (mkSt (S (calls st)) (S (S (reads st))))
      [Exec inspect_command;
       Print (strftime host (reads st) ++ lit " Current Foundry container: "
              ++ if (returncode r =? 0)%Z then strip (stdout r)
                 else lit "None");
       Print (strftime host (S (reads st)) ++ nothing_to_do)].
Proof.
  cbv zeta; unfold main.
  erewrite bind_run; [| apply get_current_foundry_version_outcome |].
  2: { eapply bind_run; [reflexivity |].
       eapply bind_run; [reflexivity |].
       eapply bind_run; [reflexivity |].
       apply update_if_new_idle; left; reflexivity. }
  cbn [calls reads app].
  destruct (returncode (sh host (calls st) inspect_command) =? 0)%Z;
    reflexivity.
Qed.

(** X17: the test of [main] for a new version.  When no version is
    available, when the available version is the empty string, or when it
    is the current one, nothing is run: one line is printed and that is
    all. *)
Theorem no_update_without_new_version
    (current_version available_version : option str) (st : St) :
  available_version = None \/ available_version = Some []
  \/ available_version = current_version ->
  update_if_new host current_version available_version st =
    mkOutcome (Val tt) (mkSt (calls st) (S (reads st)))
      [Print (strftime host (reads st) ++ nothing_to_do)].
Proof.
  intros H; unfold update_if_new.
  destruct H as [-> | [-> | ->]]; try reflexivity.
  rewrite version_neb_refl, andb_false_r; reflexivity.
Qed.

Lemma backup_foundry_data_outcome (st : St) :
  let cmd := tar_command (strftime host (reads st)) in
  backup_foundry_data host st =
    mkOutcome (Val (returncode (sh host (calls st) cmd) =? 0)%Z)
      (mkSt (S (calls st)) (S (reads st)))
      [Exec cmd].
Proof. reflexivity. Qed.

Lemma update_foundry_container_outcome (st : St) :
  update_foundry_container host st =
    mkOutcome (Val tt) (mkSt (S (S (S (S (calls st))))) (reads st))
      [Exec (lit "docker pull felddy/foundryvtt:release");
       Exec (lit "docker stop foundryvtt");
       Exec (lit "docker rm foundryvtt");
       Exec (lit "docker run -d --name foundryvtt -p 29000:30000 felddy/foundryvtt:release")].
Proof. reflexivity. Qed.

(** X18: the update itself, for a version that is available, not empty
    and not the current one.  The new version is announced and the data
    archived with tar under a name made of the clock reading; when tar
    fails the failure is announced and no docker command is run; when it
    succeeds the image is pulled and the container stopped, removed and
    started again, in this order, between two announcements. *)
Theorem update_needs_a_backup
    (current_version : option str) (version : str) (st : St) :
  version <> [] ->
  Some version <> current_version ->
  let tar := tar_command (strftime host (S (reads st))) in
  result (update_if_new host current_version (Some version) st) = Val tt
  /\ execs (events (update_if_new host current_version (Some version) st)) =
       [Exec (send_command host (new_version_message (Some version)));
        Exec tar]
       ++ if (returncode (sh host (S (calls st)) tar) =? 0)%Z then
            [Exec (send_command host backup_ok_message);
             Exec (lit "docker pull felddy/foundryvtt:release");
             Exec (lit "docker stop foundryvtt");
             Exec (lit "docker rm foundryvtt");
             Exec (lit "docker run -d --name foundryvtt -p 29000:30000 felddy/foundryvtt:release");
             Exec (send_command host updated_message)]
          else [Exec (send_command host backup_failed_message)].
Proof.
  intros Hne Hnew tar.
  assert (T : version_truthy (Some version)
              && version_neb (Some version) current_version = true).
  { rewrite (version_neb_neq Hnew), andb_true_r.
    apply str_truthy_true; exact Hne. }
  unfold update_if_new; rewrite T.
  erewrite bind_run; [| apply check_and_update_send_outcome |].
  2: { eapply bind_run; [apply backup_foundry_data_outcome |].
       cbn [calls reads]; fold tar.
       apply outcome_eta. }
  cbn [result final events].
  destruct (returncode (sh host (S (calls st)) tar) =? 0)%Z.
  - erewrite bind_run; [| apply check_and_update_send_outcome |].
    2: { eapply bind_run; [apply update_foundry_container_outcome |].
         apply check_and_update_send_outcome. }
    cbn [result events calls reads].
    split; reflexivity.
  - rewrite check_and_update_send_outcome.
    cbn [result events calls reads].
    split; reflexivity.
Qed.

End Update.

(** ** The weekly report: which backup is the latest *)

Section LatestBackup.

Import WeeklyReport.

Lemma str_leb_refl (s : str) : str_leb s s = true.
Proof.
  induction s as [| a s IH]; [reflexivity |].
  cbn [str_leb]; rewrite N.ltb_irrefl; exact IH.
Qed.

Lemma str_leb_total (s t : str) : str_leb s t = false -> str_leb t s = true.
Proof.
  revert t; induction s as [| a s IH]; intros [| b t]; cbn [str_leb];
    try discriminate; try reflexivity.
  destruct (a <? b)%N eqn:Eab; [discriminate |].
  destruct (b <? a)%N eqn:Eba; [reflexivity |].
  apply IH.
Qed.

Lemma str_leb_trans (s t u : str) :
  str_leb s t = true -> str_leb t u = true -> str_leb s u = true.
Proof.
  revert t u; induction s as [| a s IH]; intros [| b t] [| c u];
    cbn [str_leb]; try discriminate; try reflexivity.
  destruct (a <? b)%N eqn:Eab, (b <? a)%N eqn:Eba,
    (b <? c)%N eqn:Ebc, (c <? b)%N eqn:Ecb,
    (a <? c)%N eqn:Eac, (c <? a)%N eqn:Eca;
    try discriminate; try reflexivity;
    rewrite ?N.ltb_lt, ?N.ltb_ge in *; try lia.
  apply IH.
Qed.

Lemma insert_reverse_In (x y : str) (l : list str) :
  In y (insert_reverse x l) <-> y = x \/ In y l.
Proof.
  induction l as [| z l IH]; cbn [insert_reverse In].
  - intuition congruence.
  - destruct (str_leb z x); cbn [In]; [| rewrite IH]; intuition congruence.
Qed.

Lemma sort_reverse_In (y : str) (l : list str) :
  In y (sort_reverse l) <-> In y l.
Proof.
  induction l as [| x l IH]; cbn [sort_reverse In]; [tauto |].
  rewrite insert_reverse_In, IH; intuition congruence.
Qed.

Lemma insert_reverse_headed (x : str) (l : list str) :
  headed l -> headed (insert_reverse x l).
Proof.
  destruct l as [| m l]; cbn [insert_reverse headed].
  - intros _ y [<- | []]; apply str_leb_refl.
  - intros H; destruct (str_leb m x) eqn:E; cbn [headed].
    + intros y [<- | Hy]; [apply str_leb_refl |].
      apply str_leb_trans with m; [apply H; exact Hy | exact E].
    + intros y [<- | Hy]; [apply str_leb_refl |].
      apply insert_reverse_In in Hy as [-> | Hy].
      * apply str_leb_total; exact E.
      * apply H; right; exact Hy.
Qed.

Lemma sort_reverse_headed (l : list str) : headed (sort_reverse l).
Proof.
  induction l as [| x l IH]; cbn [sort_reverse]; [exact I |].
  apply insert_reverse_headed; exact IH.
Qed.

(** X19: the backup the weekly report calls the latest.  There is none
    exactly when no name of the listing starts with [foundry_backup_] and
    ends with [.tar.gz]; otherwise it is a name of the listing of that
    form, and no name of that form in the listing is greater than it in
    the order of strings. *)
Theorem latest_backup_is_greatest (listing : list str) :
  (latest_backup listing = None <->
     forall f, In f listing -> is_backup_name f = false)
  /\ (forall latest,
        latest_backup listing = Some latest ->
        In latest listing
        /\ is_backup_name latest = true
        /\ forall f,
             In f listing -> is_backup_name f = true ->
             str_leb f latest = true).
Proof.
  unfold latest_backup.
  pose proof (sort_reverse_headed (filter is_backup_name listing)) as H.
  pose proof (fun y => sort_reverse_In y (filter is_backup_name listing))
    as S.
  destruct (sort_reverse (filter is_backup_name listing)) as [| m rest].
  - split; [| discriminate].
    split; [| reflexivity].
    intros _ f Hf.
    destruct (is_backup_name f) eqn:E; [| reflexivity].
    exfalso; apply (S f); apply filter_In; auto.
  - split.
    + split; [discriminate |].
      intros Hnone; exfalso.
      assert (Hm : In m (filter is_backup_name listing))
        by (apply S; left; reflexivity).
      apply filter_In in Hm as [Hin Hb].
      rewrite (Hnone m Hin) in Hb; discriminate.
    + intros latest E; injection E as <-.
      assert (Hm : In m (filter is_backup_name listing))
        by (apply S; left; reflexivity).
      apply filter_In in Hm as [Hin Hb].
      repeat split; [exact Hin | exact Hb |].
      intros f Hf Hbf; apply H, S, filter_In; auto.
Qed.

Lemma startswith_app (p s : str) : startswith (p ++ s) p = true.
Proof.
  induction p as [| a p IH]; [destruct s; reflexivity |].
  cbn [app startswith]; unfold char_eqb; rewrite N.eqb_refl; exact IH.
Qed.

Lemma endswith_app (s p : str) : endswith (s ++ p) p = true.
Proof. unfold endswith; rewrite rev_app_distr; apply startswith_app. Qed.

Lemma str_leb_app_prefix (p s t : str) :
  str_leb (p ++ s) (p ++ t) = str_leb s t.
Proof.
  induction p as [| a p IH]; [reflexivity |].
  cbn [app str_leb]; rewrite N.ltb_irrefl; exact IH.
Qed.

Lemma str_leb_app_suffix (s t u : str) :
  List.length s = List.length t ->
  str_leb (s ++ u) (t ++ u) = str_leb s t.
Proof.
  revert t; induction s as [| a s IH]; intros [| b t] H;
    try discriminate H.
  - apply str_leb_refl.
  - cbn [app str_leb].
    destruct (a <? b)%N; [reflexivity |].
    destruct (b <? a)%N; [reflexivity |].
    apply IH; injection H; auto.
Qed.

(** X20: the two scripts agree on the archives.  Whatever the clock
    reads, the archive the update script writes is placed in [/backups]
    under a name the weekly report takes for a backup; and of two such
    names made from readings of the same length, the greater is the one
    with the greater reading. *)
Theorem archives_are_recognised (reading : str) :
  let name := lit "foundry_backup_" ++ reading ++ lit ".tar.gz" in
  CheckAndUpdate.tar_command reading =
    lit "tar czf /backups/" ++ name ++ lit " /home/foundryuser/foundrydata"
  /\ is_backup_name name = true
  /\ forall reading',
       List.length reading = List.length reading' ->
       str_leb name (lit "foundry_backup_" ++ reading' ++ lit ".tar.gz") =
         str_leb reading reading'.
Proof.
  intros name; unfold name.
  split.
  { unfold CheckAndUpdate.tar_command.
    change (lit "tar czf /backups/")
      with (lit "tar czf " ++ lit "/backups/").
    change (lit "/backups/foundry_backup_")
      with (lit "/backups/" ++ lit "foundry_backup_").
    rewrite <- !app_assoc; reflexivity. }
  split.
  { unfold is_backup_name.
    rewrite startswith_app, app_assoc, endswith_app; reflexivity. }
  intros reading' H.
  rewrite str_leb_app_prefix; apply str_leb_app_suffix; exact H.
Qed.

End LatestBackup.

(** ** The further properties on concrete hosts *)

Section FurtherScenarios.

Import SignalListener Scenario.


Lemma vocabulary_is_bound_witness :
  json_in alice (AUTHORIZED_SENDERS quiet) = true
  /\ In (lit "foundry space") ALLOWED_COMMANDS
  /\ events (handle_command quiet (lit "foundry space") alice st0) =
       [Exec (lit "df -h /backups")].
Proof.
  assert (H : In (lit "foundry space") ALLOWED_COMMANDS)
    by (apply str_in_In; reflexivity).
  split; [reflexivity |].
  split; [exact H |].
  destruct (@vocabulary_is_bound quiet (lit "foundry space") alice st0)
    as [_ [_ E]]; [reflexivity | exact H |].
  destruct E as [E _]; [discriminate |].
  exact E.
Defined.

Lemma commands_run_in_receipt_order_witness :
  received_lines two_commands st0 = [space_line; uptime_line]
  /\ execs (events (listen_cycle two_commands st0)) =
       [Exec (receive_command two_commands);
        Exec (lit "df -h /backups");
        Exec (lit "uptime")].
Proof.
  assert (L : received_lines two_commands st0 = [space_line; uptime_line])
    by reflexivity.
  split; [exact L |].
  apply (@commands_run_in_receipt_order two_commands
           [lit "foundry space"; lit "foundry uptime"] st0).
  rewrite L.
  constructor; [| constructor; [| constructor]].
  - exists space_envelope, alice, (lit "! foundry space").
    repeat split; try reflexivity.
    apply str_in_In; reflexivity.
  - exists uptime_envelope, alice, (lit "!foundry uptime").
    repeat split; try reflexivity.
    apply str_in_In; reflexivity.
Defined.

Lemma allow_list_is_what_was_configured_witness :
  getenv quiet (lit "AUTHORIZED_SENDERS") =
    Some (join [comma] [lit "+15550001"; lit "+15550002"])
  /\ AUTHORIZED_SENDERS quiet = [lit "+15550001"; lit "+15550002"].
Proof.
  split; [reflexivity |].
  apply (@allow_list_is_what_was_configured quiet
           [lit "+15550001"; lit "+15550002"]);
    [discriminate | | reflexivity].
  constructor; [| constructor; [| constructor]];
    intros H; vm_compute in H;
    repeat (destruct H as [H | H]; [discriminate H |]); exact H.
Defined.

Lemma blank_output_turn_witness :
  strip (stdout (sh blank (calls st0) (receive_command blank))) = []
  /\ events (listen_cycle blank st0) =
       [Exec (receive_command blank); decode_failure blank 0 []; Sleep 5].
Proof.
  split; [reflexivity |].
  apply (@blank_output_turn blank st0); reflexivity.
Defined.

Lemma envelope_without_text_is_ignored_witness :
  json_loads two_commands receipt_line = Some receipt_envelope
  /\ process_message two_commands receipt_line st0 =
       mkOutcome (Val tt) st0 [].
Proof.
  split; [reflexivity |].
  apply (@envelope_without_text_is_ignored two_commands receipt_line
           receipt_envelope alice (JStr []) st0);
    reflexivity.
Defined.

Lemma no_update_without_new_version_witness :
  CheckAndUpdate.update_if_new quiet (Some (lit "felddy/foundryvtt:release"))
    (Some (lit "felddy/foundryvtt:release")) st0 =
    mkOutcome (Val tt) (mkSt 0 1) [Print (clock 0 ++ nothing_to_do)].
Proof.
  apply (@no_update_without_new_version quiet); right; right; reflexivity.
Defined.

Lemma update_needs_a_backup_witness :
  execs (events (CheckAndUpdate.update_if_new down
                   (Some (lit "felddy/foundryvtt:11"))
                   (Some (lit "felddy/foundryvtt:12")) st0)) =
    [Exec (send_command down
             (CheckAndUpdate.new_version_message
                (Some (lit "felddy/foundryvtt:12"))));
     Exec (CheckAndUpdate.tar_command (clock 1));
     Exec (send_command down CheckAndUpdate.backup_failed_message)].
Proof.
  apply (@update_needs_a_backup down (Some (lit "felddy/foundryvtt:11"))
           (lit "felddy/foundryvtt:12") st0);
    [discriminate | vm_compute; discriminate].
Defined.

End FurtherScenarios.

(** * The scripts without the assumptions on the host *)

Section StrictBasics.

Variable host : Host.
Variable faults : Faults.

Lemma has_nul_app (s t : str) : has_nul (s ++ t) = has_nul s || has_nul t.
Proof. apply existsb_app. Qed.

(** With a clean environment a send line holds U+0000 exactly when the
    message does. *)
Lemma send_command_nul (message : str) :
  env_clean host ->
  has_nul (send_command host message) = has_nul message.
Proof.
  intros [Hu Hg]; unfold send_command.
  rewrite !has_nul_app, Hu, Hg.
  change (has_nul SIGNAL_CLI_PATH) with false.
  change (has_nul (lit " -u ")) with false.
  change (has_nul (lit " send --message ")) with false.
  change (has_nul [dquote]) with false.
  change (has_nul (lit " --receiver-group ")) with false.
  cbn [orb]; rewrite !orb_false_r; reflexivity.
Qed.



(** The call without [capture_output] is the call of the base model when
    the command line holds no U+0000, and a [ValueError] before anything
    is run when it does. *)
Lemma strict_run_started (cmd : str) (st : St) :
  has_nul cmd = false ->
  Strict.subprocess_run host faults false cmd st = subprocess_run host cmd st.
Proof. intros H; unfold Strict.subprocess_run; rewrite H; reflexivity. Qed.

Lemma strict_send_started (message : str) (st : St) :
  has_nul (send_command host message) = false ->
  Strict.send_signal_message host faults message st =
    SignalListener.send_signal_message host message st.
Proof.
  intros H.
  unfold Strict.send_signal_message, SignalListener.send_signal_message,
    try_except, Strict.subprocess_run_check, subprocess_run_check, bind.
  rewrite strict_run_started by exact H; reflexivity.
Qed.

Lemma strict_send_nul (message : str) (st : St) :
  has_nul (send_command host message) = true ->
  Strict.send_signal_message host faults message st =
    mkOutcome (Exc (Raised (lit "ValueError") (lit "embedded null byte")))
      st [].
Proof.
  intros H.
  unfold Strict.send_signal_message, try_except,
    Strict.subprocess_run_check, bind, Strict.subprocess_run.
  rewrite H; reflexivity.
Qed.

Lemma strict_run_action (cmd : str) (st : St) :
  has_nul cmd = false ->
  Strict.run_action host faults cmd st = SignalListener.run_action host cmd st.
Proof.
  intros H; unfold Strict.run_action, SignalListener.run_action, bind.
  rewrite strict_run_started by exact H; reflexivity.
Qed.

(** A prefixed body with a non-empty remainder reaches [handle_command]. *)
Lemma strict_process_envelope_command (source : json) (body : str) (st : St) :
  startswith body SignalListener.COMMAND_PREFIX = true ->
  strip (skipn 1 body) <> [] ->
  Strict.process_envelope host faults source (JStr body) st =
    Strict.handle_command host faults (strip (skipn 1 body)) source st.
Proof.
  intros Hp Hc.
  unfold Strict.process_envelope, bind.
  assert (Hb : truthy (JStr body) = true).
  { destruct body; [discriminate Hp | reflexivity]. }
  rewrite Hb, parse_command_str, Hp.
  cbv beta iota delta [result final events].
  apply str_truthy_true in Hc; rewrite Hc.
  destruct (Strict.handle_command host faults (strip (skipn 1 body)) source st);
    reflexivity.
Qed.



End StrictBasics.

Section StrictDispatch.

Variable host : Host.
Variable faults : Faults.

Lemma invalid_command_nul (command : str) :
  has_nul (invalid_command command) = has_nul command.
Proof.
  unfold invalid_command; rewrite !has_nul_app.
  change (has_nul (lit "Invalid command '")) with false.
  change (has_nul (lit "'. Send '!foundry help' for options.")) with false.
  cbn [orb]; apply orb_false_r.
Qed.

(** With a clean environment [handle_command] behaves as on a host that
    keeps the assumptions, but for a command text that holds U+0000 and
    has to be named in a reply: the send then raises before it starts. *)
Lemma strict_handle_command_cases (command : str) (sender : json) (st : St) :
  env_clean host ->
  Strict.handle_command host faults command sender st =
    SignalListener.handle_command host command sender st
  \/ (has_nul command = true
      /\ Strict.handle_command host faults command sender st =
           mkOutcome
             (Exc (Raised (lit "ValueError") (lit "embedded null byte")))
             st []).
Proof.
  intros He.
  assert (Sfix : forall message,
             has_nul message = false ->
             Strict.send_signal_message host faults message st =
               SignalListener.send_signal_message host message st).
  { intros message H; apply strict_send_started.
    rewrite send_command_nul by exact He; exact H. }
  unfold Strict.handle_command, SignalListener.handle_command.
  destruct (negb (json_in sender (SignalListener.AUTHORIZED_SENDERS host)));
    [left; apply Sfix; reflexivity |].
  destruct (negb (str_in command SignalListener.ALLOWED_COMMANDS)).
  { destruct (has_nul command) eqn:Hn.
    - right; split; [reflexivity |].
      apply strict_send_nul.
      rewrite send_command_nul by exact He.
      change (has_nul (invalid_command command) = true).
      rewrite invalid_command_nul; exact Hn.
    - left; apply Sfix.
      change (has_nul (invalid_command command) = false).
      rewrite invalid_command_nul; exact Hn. }
  repeat match goal with
    | |- context [if str_eqb command ?c then _ else _] =>
        destruct (str_eqb command c);
        [left; first [apply strict_run_action; reflexivity
                     | apply Sfix; reflexivity] |]
    end.
  left; reflexivity.
Qed.



End StrictDispatch.

Section StrictListener.

Variable host : Host.
Variable faults : Faults.

Lemma strict_process_envelope_cases (source body : json) (st : St) :
  env_clean host ->
  Strict.process_envelope host faults source body st =
    SignalListener.process_envelope host source body st
  \/ Strict.process_envelope host faults source body st =
       mkOutcome value_error st [].
Proof.
  intros He.
  destruct body as [| b | n | nz | s | l | d]; try (left; reflexivity).
  destruct (startswith s SignalListener.COMMAND_PREFIX) eqn:Hp.
  - destruct (strip (skipn 1 s)) as [| c0 cs] eqn:Hc.
    + left; unfold Strict.process_envelope, SignalListener.process_envelope,
        bind.
      destruct (truthy (JStr s)); [| reflexivity].
      rewrite parse_command_str, Hp, Hc; reflexivity.
    + assert (N : strip (skipn 1 s) <> []) by (rewrite Hc; discriminate).
      rewrite (strict_process_envelope_command host faults source s st Hp N).
      rewrite (process_envelope_command host source s st Hp N).
      destruct (strict_handle_command_cases faults (strip (skipn 1 s))
                  source st He) as [E | [_ E]]; auto.
  - left; unfold Strict.process_envelope, SignalListener.process_envelope,
      bind.
    destruct (truthy (JStr s)); [| reflexivity].
    rewrite parse_command_str, Hp; reflexivity.
Qed.

(** Reading the sender and the body either succeeds, and then the loop
    body is what is done with them inside the handler, or it ends the
    same way whatever would have been done with them. *)
Lemma with_envelope_cases (raw : str) (st : St) :
  (exists source body,
      forall k,
        with_envelope host raw k st =
          try_except (k source body) (decode_handler host raw) st)
  \/ (exists o, forall k, with_envelope host raw k st = o).
Proof.
  unfold with_envelope.
  destruct (json_loads host raw) as [data |] eqn:El.
  2: { right.
       exists (mkOutcome (Val tt) (mkSt (calls st) (S (reads st)))
                 [decode_failure host (reads st) raw]).
       intros k; unfold try_except, SignalListener.loads, bind; rewrite El.
       reflexivity. }
  assert (S0 : forall k : json -> M unit,
             try_except (data <- SignalListener.loads host raw ;; k data)
               (decode_handler host raw) st =
             try_except (k data) (decode_handler host raw) st).
  { intros k; unfold try_except, SignalListener.loads; rewrite El, bind_ret.
    reflexivity. }
  destruct data as [| b | n | nz | s | l | d];
    try (right; eexists (mkOutcome (Exc (AttributeError _ _)) st []);
         intros k; rewrite S0; reflexivity).
  destruct (field d (lit "envelope") (JDict [])) as [| b | n | nz | s | l | e]
    eqn:Ee;
    try (right; eexists (mkOutcome (Exc (AttributeError _ _)) st []);
         intros k; rewrite S0; unfold try_except;
         rewrite dict_get_dict, bind_ret, Ee; reflexivity).
  destruct (field e (lit "dataMessage") (JDict []))
    as [| b | n | nz | s | l | m] eqn:Em;
    try (right; eexists (mkOutcome (Exc (AttributeError _ _)) st []);
         intros k; rewrite S0; unfold try_except;
         rewrite dict_get_dict, bind_ret, Ee;
         rewrite dict_get_dict, bind_ret, dict_get_dict, bind_ret, Em;
         reflexivity).
  left; do 2 eexists; intros k; rewrite S0; unfold try_except.
  rewrite dict_get_dict, bind_ret, Ee.
  rewrite dict_get_dict, bind_ret, dict_get_dict, bind_ret, Em.
  rewrite dict_get_dict, bind_ret; reflexivity.
Qed.

(** A line on which [json.loads] raises another exception than a
    [JSONDecodeError] is not logged: the exception leaves the loop body. *)
Lemma strict_loads_raises (raw class text : str) (st : St) :
  loads_raises faults raw = Some (class, text) ->
  Strict.process_message host faults raw st =
    mkOutcome (Exc (Raised class text)) st [].
Proof.
  intros H; unfold Strict.process_message, try_except, Strict.loads, bind.
  rewrite H; reflexivity.
Qed.

Lemma strict_process_message_cases (raw : str) (st : St) :
  env_clean host ->
  loads_raises faults raw = None ->
  Strict.process_message host faults raw st =
    SignalListener.process_message host raw st
  \/ Strict.process_message host faults raw st = mkOutcome value_error st [].
Proof.
  intros He Hl.
  assert (Es : Strict.process_message host faults raw st =
               with_envelope host raw (Strict.process_envelope host faults) st).
  { unfold Strict.process_message, with_envelope, try_except, bind,
      Strict.loads, SignalListener.loads; rewrite Hl; reflexivity. }
  assert (Eb : SignalListener.process_message host raw st =
               with_envelope host raw (SignalListener.process_envelope host)
                 st) by reflexivity.
  rewrite Es, Eb.
  destruct (with_envelope_cases raw st) as [[source [body H]] | [o H]].
  - rewrite !H.
    destruct (strict_process_envelope_cases source body st He) as [E | E].
    + left; unfold try_except; rewrite E; reflexivity.
    + right; unfold try_except; rewrite E; reflexivity.
  - left; rewrite !H; reflexivity.
Qed.

End StrictListener.

Section StrictCycle.

Variable host : Host.
Variable faults : Faults.

(** Such a line is handled as on a host that keeps the assumptions, and
    it is readable. *)
Lemma handled_line (raw : str) :
  env_clean host ->
  handled host faults raw ->
  (forall st,
      Strict.process_message host faults raw st =
        SignalListener.process_message host raw st)
  /\ readable host raw = true.
Proof.
  intros He Hh.
  assert (Hl : loads_raises faults raw = None).
  { destruct (loads_raises faults raw) as [[class text] |] eqn:E;
      [| reflexivity].
    destruct (Hh st0) as [u Hu].
    rewrite (@strict_loads_raises host faults raw class text st0 E) in Hu;
      discriminate. }
  assert (Eq : forall st,
             Strict.process_message host faults raw st =
               SignalListener.process_message host raw st).
  { intros st.
    destruct (@strict_process_message_cases host faults raw st He Hl)
      as [E | E];
      [exact E |].
    destruct (Hh st) as [u Hu]; rewrite E in Hu; discriminate. }
  split; [exact Eq |].
  destruct (readable host raw) eqn:Er; [reflexivity |].
  destruct (@unreadable_raises host raw Er) as [ty [attr Hx]].
  destruct (Hh st0) as [u Hu].
  rewrite Eq, Hx in Hu; discriminate.
Qed.

Lemma for_each_handled (lines : list str) :
  env_clean host ->
  Forall (handled host faults) lines ->
  Forall (fun raw => readable host raw = true) lines
  /\ forall st,
       for_each lines (Strict.process_message host faults) st =
         for_each lines (SignalListener.process_message host) st.
Proof.
  intros He H; induction H as [| raw rest Hraw Hrest [IHr IHe]].
  - split; [constructor | reflexivity].
  - destruct (handled_line He Hraw) as [Eq Er].
    split; [constructor; assumption |].
    intros st; cbn [for_each]; unfold bind.
    rewrite Eq.
    destruct (result (SignalListener.process_message host raw st));
      [rewrite IHe |]; reflexivity.
Qed.

Lemma bind_ext {A B} (m m' : M A) (k : A -> M B) (st : St) :
  m st = m' st -> bind m k st = bind m' k st.
Proof. intros H; unfold bind; rewrite H; reflexivity. Qed.

Lemma try_except_ext {A} (m m' : M A) (h : exn -> M A) (st : St) :
  m st = m' st -> try_except m h st = try_except m' h st.
Proof. intros H; unfold try_except; rewrite H; reflexivity. Qed.

Lemma receive_command_nul :
  env_clean host -> has_nul (SignalListener.receive_command host) = false.
Proof.
  intros [Hu _]; unfold SignalListener.receive_command.
  rewrite !has_nul_app, Hu; reflexivity.
Qed.

(** C6, as amended: in a cycle in which the output of the receive command
    decodes as text, no line makes an exception leave the loop body and
    the sends succeed, the lines written are exactly one per line that
    [json.loads] rejects with a [JSONDecodeError], in order, each holding
    the raw line; a received command adds no line.  The cycle returns
    normally. *)
Theorem decode_failures_are_logged_once (st : St) :
  env_clean host ->
  undecodable_output faults (calls st) = None ->
  Forall (handled host faults) (received_lines host st) ->
  sends_succeed host ->
  result (Strict.listen_cycle host faults st) = Val tt
  /\ logs (events (Strict.listen_cycle host faults st)) =
       decode_failures host (reads st)
         (filter (undecodable host) (received_lines host st)).
Proof.
  intros He Hd Hh Hs.
  destruct (for_each_handled He Hh) as [Hr Eq].
  assert (E : Strict.listen_cycle host faults st =
              SignalListener.listen_cycle host st).
  { unfold Strict.listen_cycle, SignalListener.listen_cycle.
    apply bind_ext, try_except_ext.
    unfold bind, Strict.subprocess_run.
    rewrite (receive_command_nul He), Hd.
    unfold subprocess_run; cbn [result final events].
    unfold received_lines in Eq; cbv zeta in Eq.
    destruct (str_truthy
                (stdout (sh host (calls st)
                           (SignalListener.receive_command host))));
      [rewrite Eq |]; reflexivity. }
  rewrite E.
  apply decode_failures_logged_on_assumptions; assumption.
Qed.

End StrictCycle.

Section StrictProber.

Variable host : Host.
Variable faults : Faults.

Lemma uint_no_nul (d : Decimal.uint) :
  has_nul (lit (NilEmpty.string_of_uint d)) = false.
Proof. induction d; cbn; auto. Qed.

(** The decimal writing of a port holds no U+0000. *)
Lemma str_of_int_nul (n : Z) : has_nul (str_of_int n) = false.
Proof.
  unfold str_of_int, NilZero.string_of_int.
  destruct (Z.to_int n) as [d | d]; unfold NilZero.string_of_uint.
  - destruct d; try apply uint_no_nul; reflexivity.
  - change (has_nul (45%N :: lit match d with
                                 | Decimal.Nil => "0"%string
                                 | _ => NilEmpty.string_of_uint d
                                 end) = false).
    cbn [has_nul existsb N.eqb orb].
    destruct d; try apply uint_no_nul; reflexivity.
Qed.

Lemma curl_command_nul (port : Z) :
  has_nul (HealthCheck.curl_command port) = false.
Proof.
  unfold HealthCheck.curl_command; rewrite has_nul_app, str_of_int_nul.
  reflexivity.
Qed.

(** C9, as amended: both checks run one fixed query.  When its output is
    valid text, the container check is true exactly when podman printed
    something other than white space, whatever its exit status, and the
    web check is true exactly when curl exited with status 0, whatever it
    printed; so neither raises on a command that fails or times out, and
    a failed command gives false for the web check always and for the
    container check when it printed nothing.  When the output is not
    valid text both raise a [UnicodeDecodeError] after the query ran. *)
Theorem prober_checks (port : Z) (st : St) :
  let podman_line :=
    lit "podman ps --filter 'name=foundryvtt' --filter 'status=running' -q" in
  let curl_line :=
    lit "curl --connect-timeout 5 -s http://localhost:" ++ str_of_int port in
  let podman := sh host (calls st) podman_line in
  let curl := sh host (calls st) curl_line in
  let after := mkSt (S (calls st)) (reads st) in
  match undecodable_output faults (calls st) with
  | None =>
      Strict.check_foundry_container host faults st =
        mkOutcome (Val (str_truthy (strip (stdout podman)))) after
          [Exec podman_line]
      /\ (str_truthy (strip (stdout podman)) = true <->
            exists c, In c (stdout podman) /\ isspace c = false)
      /\ Strict.check_web_server host faults port st =
           mkOutcome (Val (returncode curl =? 0)%Z) after [Exec curl_line]
      /\ ((returncode curl =? 0)%Z = true <-> returncode curl = 0%Z)
  | Some text =>
      Strict.check_foundry_container host faults st =
        mkOutcome (Exc (Raised (lit "UnicodeDecodeError") text)) after
          [Exec podman_line]
      /\ Strict.check_web_server host faults port st =
           mkOutcome (Exc (Raised (lit "UnicodeDecodeError") text)) after
             [Exec curl_line]
  end.
Proof.
  cbv zeta.
  pose proof (curl_command_nul port) as Hc.
  unfold HealthCheck.curl_command in Hc.
  unfold Strict.check_foundry_container, Strict.check_web_server, bind,
    Strict.subprocess_run, HealthCheck.podman_command,
    HealthCheck.curl_command.
  rewrite Hc.
  change (has_nul
            (lit "podman ps --filter 'name=foundryvtt' --filter 'status=running' -q"))
    with false.
  cbv beta iota; cbn [andb].
  destruct (undecodable_output faults (calls st)) as [text |].
  - split; reflexivity.
  - split; [reflexivity |].
    split; [rewrite str_truthy_true; apply strip_not_nil |].
    split; [reflexivity | apply Z.eqb_eq].
Qed.

End StrictProber.

(** ** The empty sender of an unset allow-list *)

Section EmptySender.

Variable host : Host.

Import SignalListener.

(** A send line of the notifier tells its message. *)
Lemma send_command_inj (m1 m2 : str) :
  send_command host m1 = send_command host m2 -> m1 = m2.
Proof.
  unfold send_command; intros H.
  repeat apply app_inv_head in H.
  apply app_inv_tail in H; exact H.
Qed.

Lemma not_the_denial (cmd : str) (t : list event) :
  cmd <> send_command host access_denied ->
  Forall (fun e => is_exec e = false) t ->
  ~ In (Exec (send_command host access_denied)) (Exec cmd :: t).
Proof.
  intros Hc Ht [H | H].
  - injection H as H; contradiction.
  - rewrite Forall_forall in Ht; specialize (Ht _ H); discriminate.
Qed.

Lemma other_message_other_line (message : str) (c : char) (rest : str) :
  message = c :: rest -> c <> 85%N ->
  send_command host message <> send_command host access_denied.
Proof.
  intros -> Hc H; apply send_command_inj in H.
  injection H; intros; contradiction.
Qed.

(** C2: when [AUTHORIZED_SENDERS] is unset or empty the allow-list is the
    one-element list holding the empty string, which the empty sender
    passes.  A line whose envelope has no [source] and whose body is a
    command is handled by [handle_command] on that command with the empty
    string as sender: a vocabulary command runs the shell command bound
    to it, and whatever the command the denial is never sent. *)
Theorem unset_allow_list_admits_empty_sender :
  getenv host (lit "AUTHORIZED_SENDERS") = None
  \/ getenv host (lit "AUTHORIZED_SENDERS") = Some [] ->
  AUTHORIZED_SENDERS host = [[]]
  /\ json_in (JStr []) (AUTHORIZED_SENDERS host) = true
  /\ (forall raw d e m body st,
        json_loads host raw = Some (JDict d) ->
        field d (lit "envelope") (JDict []) = JDict e ->
        assoc (lit "source") e = None ->
        field e (lit "dataMessage") (JDict []) = JDict m ->
        field m (lit "message") (JStr []) = JStr body ->
        startswith body COMMAND_PREFIX = true ->
        strip (skipn 1 body) <> [] ->
        process_message host raw st =
          handle_command host (strip (skipn 1 body)) (JStr []) st
        /\ (In (strip (skipn 1 body)) ALLOWED_COMMANDS ->
            execs (events (process_message host raw st)) =
              [Exec (bound_command host (strip (skipn 1 body)))]))
  /\ (forall command st,
        ~ In (Exec (send_command host access_denied))
            (events (handle_command host command (JStr []) st))).
Proof.
  intros H.
  assert (E : AUTHORIZED_SENDERS host = [[]]).
  { unfold AUTHORIZED_SENDERS, getenv_default.
    destruct H as [-> | ->]; reflexivity. }
  assert (G : json_in (JStr []) (AUTHORIZED_SENDERS host) = true)
    by (rewrite E; reflexivity).
  split; [exact E |].
  split; [exact G |].
  split.
  - intros raw d e m body st Hl Hd Hs Hm Hb Hp Hc.
    assert (P : process_message host raw st =
                handle_command host (strip (skipn 1 body)) (JStr []) st).
    { rewrite (@process_message_decoded host raw (JDict d) (JStr [])
                 (JStr body) st Hl).
      - apply process_envelope_command; assumption.
      - unfold envelope_of; rewrite Hd, Hm, Hb.
        unfold field at 1; rewrite Hs; reflexivity.
      - intros x; rewrite process_envelope_str_returns; discriminate. }
    split; [exact P |].
    intros Hin; rewrite P.
    apply handle_command_bound; assumption.
  - intros command st.
    unfold handle_command; rewrite G; cbn [negb].
    destruct (negb (str_in command ALLOWED_COMMANDS)).
    { rewrite send_signal_message_outcome; cbn [events].
      apply not_the_denial.
      - apply (@other_message_other_line _ 73%N
                 (lit "nvalid command '" ++ command
                  ++ lit "'. Send '!foundry help' for options."));
          [reflexivity | discriminate].
      - destruct (_ =? 0)%Z; repeat constructor. }
    repeat match goal with
      | |- context [if str_eqb command ?c then _ else _] =>
          destruct (str_eqb command c)
      end;
      try (apply not_the_denial; [| constructor];
           unfold send_command, SIGNAL_CLI_PATH; cbn; discriminate).
    + rewrite send_signal_message_outcome; cbn [events].
      apply not_the_denial.
      * apply (@other_message_other_line _ 65%N
                 (skipn 1 help_message)); [reflexivity | discriminate].
      * destruct (_ =? 0)%Z; repeat constructor.
    + intros [].
Qed.

End EmptySender.

(** ** The revised statements on concrete hosts *)

Section StrictScenarios.

Import SignalListener Scenario.


Lemma unset_allow_list_admits_empty_sender_witness :
  getenv unconfigured (lit "AUTHORIZED_SENDERS") = None
  /\ AUTHORIZED_SENDERS unconfigured = [[]]
  /\ json_loads unconfigured anonymous_line = Some anonymous_envelope
  /\ execs (events (process_message unconfigured anonymous_line st0)) =
       [Exec (lit "uptime")]
  /\ execs (events (listen_cycle unconfigured st0)) =
       [Exec (receive_command unconfigured); Exec (lit "uptime")].
Proof.
  destruct (@unset_allow_list_admits_empty_sender unconfigured)
    as [E [_ [P _]]]; [left; reflexivity |].
  split; [reflexivity |].
  split; [exact E |].
  split; [reflexivity |].
  split; [| reflexivity].
  destruct (P anonymous_line _ _ _ (lit "!foundry uptime") st0
              eq_refl eq_refl eq_refl eq_refl eq_refl eq_refl)
    as [_ X]; [vm_compute; discriminate |].
  rewrite X; [reflexivity | apply str_in_In; reflexivity].
Defined.


Lemma decode_failures_are_logged_once_witness :
  received_lines mixed st0 = [lit "oops"; uptime_line]
  /\ result (Strict.listen_cycle mixed no_faults st0) = Val tt
  /\ logs (events (Strict.listen_cycle mixed no_faults st0)) =
       [decode_failure mixed 0 (lit "oops")].
Proof.
  assert (L : received_lines mixed st0 = [lit "oops"; uptime_line])
    by reflexivity.
  split; [exact L |].
  destruct (@decode_failures_are_logged_once mixed no_faults st0) as [R X].
  - split; reflexivity.
  - reflexivity.
  - rewrite L; constructor; [| constructor; [| constructor]];
      intros st; eexists; reflexivity.
  - apply sends_succeed_receiving.
  - split; [exact R | rewrite X, L; reflexivity].
Defined.

(** C9, as stated, fails: a podman query that fails after printing a line
    makes the container check answer true. *)
Lemma failing_query_reports_a_container :
  returncode (sh printing_failure (calls st0) HealthCheck.podman_command)
    <> 0%Z
  /\ undecodable_output no_faults (calls st0) = None
  /\ result (Strict.check_foundry_container printing_failure no_faults st0)
     = Val true
  /\ result (HealthCheck.check_foundry_container printing_failure st0)
     = Val true.
Proof.
  split; [vm_compute; discriminate |].
  split; [reflexivity |].
  split; reflexivity.
Qed.


End StrictScenarios.
